(** * Smart-Spreadsheet: table region detection and hierarchical reconstruction

    A shallow embedding of [helper_functions.py] and the properties of its
    border classifier, its table region detector ([get_table_ranges]), its
    flat-record reader ([process_simple_table]) and its hierarchical
    reconstructor ([process_hierarchical_table]).

    Conventions of the embedding:
    - Python integers that are used here only as 1-based grid coordinates and
      list indices are [nat]; the one quantity that can be negative (the
      indentation step) is a [Z].
    - Python exceptions are the constructors [IndexError] and [TypeError] of
      [result]; a function that cannot raise is a plain Rocq function.
    - A Python [dict] is an association list in insertion order with unique
      keys; [None] as a key is [None : option string].
    - A cell value is [option string]: [None] is an empty cell, [Some s] a
      cell whose Python [str()] rendering is [s].  A text is a [string] of
      code points below 256.
    - [sheet.cell(row, column)] is only called with coordinates from 1 on, so
      it never raises. *)

From Stdlib Require Import String Ascii List ZArith Lia Bool Arith.
From stdpp Require Import base list.
Import ListNotations.
Local Open Scope string_scope.
Local Open Scope nat_scope.
Local Open Scope list_scope.

(** ** Exceptions *)

Inductive result (A : Type) : Type :=
| OK (a : A)
| IndexError
| TypeError.
Arguments OK {A} a.
Arguments IndexError {A}.
Arguments TypeError {A}.

#[global] Instance result_ret : MRet result := fun _ a => OK a.
#[global] Instance result_bind : MBind result := fun _ _ f m =>
  match m with
  | OK a => f a
  | IndexError => IndexError
  | TypeError => TypeError
  end.

(** [for x in xs: st = body(st, x)], stopping at the first exception. *)
Fixpoint for_each {A S : Type} (body : S -> A -> result S) (xs : list A) (st : S)
  : result S :=
  match xs with
  | [] => OK st
  | x :: rest => st' ← body st x; for_each body rest st'
  end.

(** Python's [range(a, b)]. *)
Definition range (a b : nat) : list nat := seq a (b - a).

(** ** Cells, borders, worksheets *)

Record Side := { style : option string }.

Module Border.
Record t := mk { top : Side; bottom : Side; left : Side; right : Side }.
End Border.

Record Cell := {
  row : nat;
  column : nat;
  value : option string;
  border : Border.t;
  fill_bgColor : string
}.

(** What a worksheet stores at a coordinate. *)
Record CellData := {
  cd_value : option string;
  cd_border : Border.t;
  cd_fill : string
}.

Definition no_side : Side := {| style := None |}.
Definition no_border : Border.t := Border.mk no_side no_side no_side no_side.
Definition blank : CellData :=
  {| cd_value := None; cd_border := no_border; cd_fill := "00000000" |}.

(** An openpyxl worksheet: its extents and its cells.  [ws.cell(row, column)]
    of a coordinate that holds nothing yet is a blank cell; none of the reads
    of the detector goes past [max_column], so the column extent is stable
    during a scan. *)
Record Worksheet := {
  max_row : nat;
  max_column : nat;
  contents : nat -> nat -> CellData
}.

Definition cell (ws : Worksheet) (r c : nat) : Cell :=
  {| row := r; column := c;
     value := cd_value (contents ws r c);
     border := cd_border (contents ws r c);
     fill_bgColor := cd_fill (contents ws r c) |}.

(** [Workbook().active]: no cell yet, extents 1 x 1. *)
Definition new_worksheet : Worksheet :=
  {| max_row := 1; max_column := 1; contents := fun _ _ => blank |}.

(** [ws.cell(row=r, column=c).value = v] *)
Definition set_value (ws : Worksheet) (r c : nat) (v : option string) : Worksheet :=
  {| max_row := Nat.max (max_row ws) r;
     max_column := Nat.max (max_column ws) c;
     contents := fun r' c' =>
       if (r' =? r) && (c' =? c)
       then {| cd_value := v;
               cd_border := cd_border (contents ws r c);
               cd_fill := cd_fill (contents ws r c) |}
       else contents ws r' c' |}.

(** [ws[r]]: the cells of row [r], columns 1..max_column. *)
Definition row_cells (ws : Worksheet) (r : nat) : list Cell :=
  map (cell ws r) (range 1 (max_column ws + 1)).

(** [ws.iter_rows(min_row=m)] *)
Definition iter_rows (ws : Worksheet) (min_row : nat) : list (list Cell) :=
  map (row_cells ws) (range min_row (max_row ws + 1)).

(** The single column that [ws.iter_cols(min_col=1, max_col=1)] yields. *)
Definition first_column (ws : Worksheet) : list Cell :=
  map (fun r => cell ws r 1) (range 1 (max_row ws + 1)).

(** ** Strings *)

(** [str.isspace] on the code points below 256. *)
Definition is_space (a : ascii) : bool :=
  let n := nat_of_ascii a in
  ((9 <=? n) && (n <=? 13)) || ((28 <=? n) && (n <=? 32))
  || (n =? 133) || (n =? 160).

Fixpoint lstrip (s : string) : string :=
  match s with
  | EmptyString => EmptyString
  | String a rest => if is_space a then lstrip rest else s
  end.

Fixpoint rstrip (s : string) : string :=
  match s with
  | EmptyString => EmptyString
  | String a rest =>
      match rstrip rest with
      | EmptyString => if is_space a then EmptyString else String a EmptyString
      | r => String a r
      end
  end.

Definition strip (s : string) : string := lstrip (rstrip s).

Definition len (s : string) : nat := String.length s.

(** [str(cell.value)]; an empty cell serializes to the text "None". *)
Definition serialize_value (c : Cell) : string :=
  match value c with
  | None => "None"
  | Some s => s
  end.

(** ** Python values and dictionaries *)

#[warnings="-register-all"]
Inductive pyval : Type :=
| PyNone
| PyStr (s : string)
| PyDict (items : list (option string * pyval)).

Definition pykey : Type := option string.
Definition dict : Type := list (pykey * pyval).

Definition key_eqb (a b : pykey) : bool :=
  match a, b with
  | None, None => true
  | Some x, Some y => String.eqb x y
  | _, _ => false
  end.

(** [d.get(k)], with [None] for a key that is not in [d]. *)
Fixpoint dict_get (k : pykey) (d : dict) : option pyval :=
  match d with
  | [] => None
  | (k', v) :: rest => if key_eqb k k' then Some v else dict_get k rest
  end.

(** [d[k] = v]: an existing key keeps its place, a new key goes last. *)
Fixpoint dict_set (k : pykey) (v : pyval) (d : dict) : dict :=
  match d with
  | [] => [(k, v)]
  | (k', v') :: rest =>
      if key_eqb k k' then (k', v) :: rest else (k', v') :: dict_set k v rest
  end.

Definition dict_keys (d : dict) : list pykey := map fst d.

(** [dict(pairs)] *)
Definition py_dict (pairs : list (pykey * pyval)) : dict :=
  fold_left (fun d kv => dict_set (fst kv) (snd kv) d) pairs [].

Definition is_none_key (k : pykey) : bool :=
  match k with None => true | Some _ => false end.

Definition is_none (v : pyval) : bool :=
  match v with PyNone => true | _ => false end.

Definition remove_none_key_value_pairs (d : dict) : dict :=
  List.filter (fun kv => negb (is_none_key (fst kv) && is_none (snd kv))) d.

(** ** Flat tables *)

Definition str_keys (l : list string) : list pykey := map Some l.

Definition process_simple_table (ws : Worksheet) : list dict :=
  let headers := map serialize_value (row_cells ws 1) in
  map (fun row =>
         let values := map serialize_value row in
         let record := py_dict (combine (str_keys headers) (map PyStr values)) in
         remove_none_key_value_pairs record)
      (iter_rows ws 2).

(** The record of one data row before the cleanup. *)
Definition zipped_record (ws : Worksheet) (r : nat) : dict :=
  py_dict (combine (str_keys (map serialize_value (row_cells ws 1)))
                   (map PyStr (map serialize_value (row_cells ws r)))).

(** ** Hierarchical tables *)

Definition leading_spaces (s : string) : nat := len s - len (lstrip s).

(** The loop of [calculate_num_leading_space_per_level] over
    [zip(row_headers, row_headers[1:])]. *)
Fixpoint first_indent_step (pairs : list (string * string)) : Z :=
  match pairs with
  | [] => 0%Z
  | (current_header, next_header) :: rest =>
      let current_spaces := leading_spaces current_header in
      let next_spaces := leading_spaces next_header in
      if negb (next_spaces =? current_spaces)
      then (Z.of_nat next_spaces - Z.of_nat current_spaces)%Z
      else first_indent_step rest
  end.

Definition calculate_num_leading_space_per_level (row_headers : list string) : Z :=
  first_indent_step (combine row_headers (tl row_headers)).

(** The value map of a leaf: [dict(zip(col_headers, [serialize_value(d) ...]))]. *)
Definition leaf_of (col_headers : list string) (data_cells : list Cell) : dict :=
  py_dict (combine (str_keys col_headers)
                   (map (fun d => PyStr (serialize_value d)) data_cells)).

(** The walk of [add_data] from [current_level] down [nodes], followed by the
    assignment of the leaf under the last label.  The source updates the
    nested dictionaries in place; every dictionary of the tree is reachable
    through one path only, so the update is written as a rebuild along that
    path.  [node not in current_level], [current_level[node]] and the item
    assignment raise [TypeError] when [current_level] is a text (a value of a
    leaf) or [None]; [nodes[-1]] raises [IndexError] on an empty list. *)
Fixpoint add_data_at (current_level : pyval) (nodes : list string) (leaf : dict)
  : result pyval :=
  match nodes with
  | [] => IndexError
  | [last] =>
      match current_level with
      | PyDict d => OK (PyDict (dict_set (Some last) (PyDict leaf) d))
      | _ => TypeError
      end
  | node :: rest =>
      match current_level with
      | PyDict d =>
          match dict_get (Some node) d with
          | None =>
              (* warning: can't find node; current_level[node] = {} *)
              child ← add_data_at (PyDict []) rest leaf;
              OK (PyDict (dict_set (Some node) child d))
          | Some next_level =>
              child ← add_data_at next_level rest leaf;
              OK (PyDict (dict_set (Some node) child d))
          end
      | _ => TypeError
      end
  end.

Definition add_data (processed_table : dict) (nodes : list string)
    (col_headers : list string) (data_cells : list Cell) : result dict :=
  t ← add_data_at (PyDict processed_table) nodes (leaf_of col_headers data_cells);
  match t with
  | PyDict d => OK d
  | _ => TypeError
  end.

Definition any_populated (data_cells : list Cell) : bool :=
  existsb (fun c => match value c with None => false | Some _ => true end)
          data_cells.

(** The tree under construction and the running path. *)
Definition build_state : Type := (dict * list string)%type.

(** One iteration of the loop over [ws.iter_rows(min_row=2)]. *)
Definition process_row (col_headers : list string) (st : build_state)
    (row : list Cell) : result build_state :=
  let '(processed_table, nodes) := st in
  match row with
  | [] => IndexError
  | row0 :: data_cells =>
      let level := len (serialize_value row0) - len (lstrip (serialize_value row0)) in
      let label := strip (serialize_value row0) in
      let nodes := firstn level nodes ++ [label] in
      if any_populated data_cells
      then processed_table ← add_data processed_table nodes col_headers data_cells;
           OK (processed_table, nodes)
      else OK (processed_table, nodes)
  end.

(** The tree before the final cleanup. *)
Definition build_tree (ws : Worksheet) : result dict :=
  let col_headers := map serialize_value (tl (row_cells ws 1)) in
  let row_headers := map serialize_value (tl (first_column ws)) in
  let num_leading_space_per_level := calculate_num_leading_space_per_level row_headers in
  let num_leading_space_per_level :=
    if (num_leading_space_per_level =? 0)%Z then 1%Z else num_leading_space_per_level in
  st ← for_each (process_row col_headers) (iter_rows ws 2) ([], []);
  OK (fst st).

Definition process_hierarchical_table (ws : Worksheet) : result dict :=
  processed_table ← build_tree ws;
  OK (remove_none_key_value_pairs processed_table).

(** The level of every data row, as the loop computes it. *)
Definition row_levels (ws : Worksheet) : list nat :=
  map (fun row => match row with
                  | [] => 0
                  | row0 :: _ => len (serialize_value row0) - len (lstrip (serialize_value row0))
                  end)
      (iter_rows ws 2).

(** The path of every data row, as the loop computes it. *)
Fixpoint row_paths (nodes : list string) (rows : list (list Cell)) : list (list string) :=
  match rows with
  | [] => []
  | [] :: _ => []
  | (row0 :: _) :: rest =>
      let level := len (serialize_value row0) - len (lstrip (serialize_value row0)) in
      let nodes := firstn level nodes ++ [strip (serialize_value row0)] in
      nodes :: row_paths nodes rest
  end.

(** Reading the tree along a path of labels. *)
Fixpoint get_path (v : pyval) (path : list string) : option pyval :=
  match path with
  | [] => Some v
  | label :: rest =>
      match v with
      | PyDict d =>
          match dict_get (Some label) d with
          | Some child => get_path child rest
          | None => None
          end
      | _ => None
      end
  end.

(** ** Table region detector *)

Definition is_medium (s : Side) : bool :=
  match style s with
  | Some st => String.eqb st "medium"
  | None => false
  end.

Definition has_bottom_right_border (c : Cell) : bool :=
  if is_medium (Border.bottom (border c)) && is_medium (Border.right (border c))
  then true else false.

Definition has_top_right_border (c : Cell) : bool :=
  if is_medium (Border.top (border c)) && is_medium (Border.right (border c))
  then true else false.

Definition has_upper_left_border (c : Cell) : bool :=
  if is_medium (Border.top (border c)) && is_medium (Border.left (border c))
  then true else false.

Definition is_empty_cell (c : Cell) : bool :=
  match value c with None => true | Some _ => false end.

Definition MAX_ROW_IDX : nat := 100.

(** A detected range.  The source keeps it as the text of its two corner
    coordinates, ["<start>:<end>"]; the record keeps the four numbers. *)
Record table_range := {
  table_start_row : nat;
  table_start_col : nat;
  table_end_row : nat;
  table_end_col : nat
}.

Abbreviation mask := (list (list bool)).

(** [visited[row][col]] *)
Definition get_visited (visited : mask) (r c : nat) : result bool :=
  match visited !! r with
  | None => IndexError
  | Some line =>
      match line !! c with
      | None => IndexError
      | Some b => OK b
      end
  end.

(** [visited[row][col] = True] *)
Definition set_visited (visited : mask) (r c : nat) : result mask :=
  match visited !! r with
  | None => IndexError
  | Some line =>
      if c <? length line
      then OK (<[r := <[c := true]> line]> visited)
      else IndexError
  end.

(** The body of the column loop of [mark_cells_visited]: the cell is marked
    and its value is copied into the new worksheet. *)
Definition mark_cell (sheet : Worksheet) (start_row start_col r : nat)
    (st : mask * Worksheet) (c : nat) : result (mask * Worksheet) :=
  let '(visited, worksheet) := st in
  visited ← set_visited visited r c;
  let val := value (cell sheet r c) in
  OK (visited, set_value worksheet (r - start_row + 1) (c - start_col + 1) val).

Definition mark_row (sheet : Worksheet) (start_row start_col end_col : nat)
    (st : mask * Worksheet) (r : nat) : result (mask * Worksheet) :=
  for_each (mark_cell sheet start_row start_col r) (range start_col (end_col + 1)) st.

Definition mark_cells_visited (sheet : Worksheet) (visited : mask)
    (start_row start_col end_row end_col : nat) : result (mask * Worksheet) :=
  for_each (mark_row sheet start_row start_col end_col)
           (range start_row (end_row + 1))
           (visited, new_worksheet).

(** The rightward loop with its [break]: [cols] is what is left of
    [range(table_start_col + 1, sheet.max_column + 1)]. *)
Fixpoint find_end_col (sheet : Worksheet) (table_start_row : nat)
    (cols : list nat) (table_end_col : nat) : nat :=
  match cols with
  | [] => table_end_col
  | col_idx_inner :: rest =>
      let last_cell := cell sheet table_start_row (col_idx_inner - 1) in
      if has_top_right_border last_cell
      then col_idx_inner - 1
      else find_end_col sheet table_start_row rest table_end_col
  end.

(** The downward loop with its [break]: [rows] is what is left of
    [range(table_start_row + 1, MAX_ROW_IDX + 1)]. *)
Fixpoint find_end_row (sheet : Worksheet) (table_end_col : nat)
    (rows : list nat) (table_end_row : nat) : nat :=
  match rows with
  | [] => table_end_row
  | row_idx_inner :: rest =>
      let last_cell := cell sheet (row_idx_inner - 1) table_end_col in
      if has_bottom_right_border last_cell
      then row_idx_inner - 1
      else find_end_row sheet table_end_col rest table_end_row
  end.

Record scan_state := {
  table_ranges : list table_range;
  simple_table_workbooks : list Worksheet;
  complex_table_workbooks : list Worksheet;
  visited : mask;
  is_complex : bool
}.

(** The body of the column loop at [(row_idx, col_idx)].  The reads of
    [pre_cell] and [curr_cell] in the source are not used. *)
Definition scan_cell (sheet : Worksheet) (row_idx : nat) (st : scan_state)
    (col_idx : nat) : result scan_state :=
  seen ← get_visited (visited st) row_idx col_idx;
  if seen || (row_idx <? 45) then OK st
  else
    let c := cell sheet row_idx col_idx in
    if has_upper_left_border c then
      let table_start_row := row c in
      let table_start_col := column c in
      let table_end_row := row c in
      let table_end_col := column c in
      let is_complex := if is_empty_cell c then true else is_complex st in
      let table_end_col :=
        find_end_col sheet table_start_row
          (range (table_start_col + 1) (max_column sheet + 1)) table_end_col in
      let table_end_row :=
        find_end_row sheet table_end_col
          (range (table_start_row + 1) (MAX_ROW_IDX + 1)) table_end_row in
      let rng := {| table_start_row := table_start_row;
                    table_start_col := table_start_col;
                    table_end_row := table_end_row;
                    table_end_col := table_end_col |} in
      '(visited', wb) ← mark_cells_visited sheet (visited st)
                           table_start_row table_start_col table_end_row table_end_col;
      if is_complex
      then OK {| table_ranges := table_ranges st ++ [rng];
                 simple_table_workbooks := simple_table_workbooks st;
                 complex_table_workbooks := complex_table_workbooks st ++ [wb];
                 visited := visited';
                 is_complex := false |}
      else OK {| table_ranges := table_ranges st ++ [rng];
                 simple_table_workbooks := simple_table_workbooks st ++ [wb];
                 complex_table_workbooks := complex_table_workbooks st;
                 visited := visited';
                 is_complex := is_complex |}
    else OK st.

(** The body of the row loop: [is_complex = False], then the column loop.
    [col_idx] grows by one on every path through the body, so the [while]
    over it visits [range(1, sheet.max_column)]. *)
Definition scan_row (sheet : Worksheet) (st : scan_state) (row_idx : nat)
  : result scan_state :=
  let st := {| table_ranges := table_ranges st;
               simple_table_workbooks := simple_table_workbooks st;
               complex_table_workbooks := complex_table_workbooks st;
               visited := visited st;
               is_complex := false |} in
  for_each (scan_cell sheet row_idx) (range 1 (max_column sheet)) st.

Definition initial_state (sheet : Worksheet) : scan_state :=
  {| table_ranges := [];
     simple_table_workbooks := [];
     complex_table_workbooks := [];
     visited := repeat (repeat false (max_column sheet)) MAX_ROW_IDX;
     is_complex := false |}.

(** The state when the row loop, which visits [range(1, MAX_ROW_IDX)], ends. *)
Definition scan (sheet : Worksheet) : result scan_state :=
  for_each (scan_row sheet) (range 1 MAX_ROW_IDX) (initial_state sheet).

Definition get_table_ranges (sheet : Worksheet)
  : result (list table_range * list Worksheet * list Worksheet) :=
  st ← scan sheet;
  OK (table_ranges st, simple_table_workbooks st, complex_table_workbooks st).

(** ** Vocabulary of the specifications *)

(** The sub-grid that [mark_cells_visited] copies out of a rectangle. *)
Definition copy_cell (sheet : Worksheet) (start_row start_col r : nat)
    (w : Worksheet) (c : nat) : Worksheet :=
  set_value w (r - start_row + 1) (c - start_col + 1) (value (cell sheet r c)).

Definition copy_row (sheet : Worksheet) (start_row start_col end_col : nat)
    (w : Worksheet) (r : nat) : Worksheet :=
  fold_left (copy_cell sheet start_row start_col r) (range start_col (end_col + 1)) w.

Definition copy_region (sheet : Worksheet) (start_row start_col end_row end_col : nat)
  : Worksheet :=
  fold_left (copy_row sheet start_row start_col end_col)
            (range start_row (end_row + 1)) new_worksheet.

Definition sub_grid (sheet : Worksheet) (rng : table_range) : Worksheet :=
  copy_region sheet (table_start_row rng) (table_start_col rng)
              (table_end_row rng) (table_end_col rng).

Definition corner (sheet : Worksheet) (rng : table_range) : Cell :=
  cell sheet (table_start_row rng) (table_start_col rng).

Definition in_range (rng : table_range) (r c : nat) : bool :=
  (table_start_row rng <=? r) && (r <=? table_end_row rng)
  && (table_start_col rng <=? c) && (c <=? table_end_col rng).

(** Two rectangles share a cell. *)
Definition overlap (a b : table_range) : bool :=
  (table_start_row a <=? table_end_row b) && (table_start_row b <=? table_end_row a)
  && (table_start_col a <=? table_end_col b) && (table_start_col b <=? table_end_col a).

Definition regions_disjoint (rs : list table_range) : Prop :=
  forall i j a b, i <> j -> rs !! i = Some a -> rs !! j = Some b -> overlap a b = false.

(** No cell of the corner's row, from the corner to the last scanned column,
    is a top-right corner. *)
Definition no_top_right (sheet : Worksheet) (rng : table_range) : Prop :=
  forall c, table_start_col rng <= c -> c < max_column sheet ->
            has_top_right_border (cell sheet (table_start_row rng) c) = false.

(** No cell of column [table_end_col], from the corner's row to the last
    scanned row, is a bottom-right corner. *)
Definition no_bottom_right (sheet : Worksheet) (rng : table_range) : Prop :=
  forall r, table_start_row rng <= r -> r < MAX_ROW_IDX ->
            has_bottom_right_border (cell sheet r (table_end_col rng)) = false.

(** An unclosed region reaching the limit of the scan, whether the limit is
    taken as the last index scanned or as the bound of the loop. *)
Definition clamps_to_scan_limit (sheet : Worksheet) : Prop :=
  forall rs simple complex rng,
    get_table_ranges sheet = OK (rs, simple, complex) -> In rng rs ->
    (no_top_right sheet rng ->
       table_end_col rng = max_column sheet - 1 \/ table_end_col rng = max_column sheet) /\
    (no_bottom_right sheet rng ->
       table_end_row rng = MAX_ROW_IDX - 1 \/ table_end_row rng = MAX_ROW_IDX).

(** The claim that the regions of one scan are well formed and pairwise
    disjoint. *)
Definition regions_well_separated (sheet : Worksheet) : Prop :=
  forall rs simple complex,
    get_table_ranges sheet = OK (rs, simple, complex) ->
    Forall (fun rng => table_start_row rng <= table_end_row rng /\
                       table_start_col rng <= table_end_col rng) rs /\
    regions_disjoint rs.

(** The mask has [MAX_ROW_IDX] lines of [max_column] marks. *)
Definition mask_shape (sheet : Worksheet) (v : mask) : Prop :=
  length v = MAX_ROW_IDX /\ Forall (fun line => length line = max_column sheet) v.

(** Every mark of [v] is a mark of [v']. *)
Definition mask_le (v v' : mask) : Prop :=
  forall r c, get_visited v r c = OK true -> get_visited v' r c = OK true.

(** The region that the scan reads off a corner at [(row_idx, col_idx)]. *)
Definition region_at (sheet : Worksheet) (row_idx col_idx : nat) : table_range :=
  let table_end_col :=
    find_end_col sheet row_idx (range (col_idx + 1) (max_column sheet + 1)) col_idx in
  {| table_start_row := row_idx;
     table_start_col := col_idx;
     table_end_row :=
       find_end_row sheet table_end_col (range (row_idx + 1) (MAX_ROW_IDX + 1)) row_idx;
     table_end_col := table_end_col |}.

(** How a region comes out of the scan: its corner is an upper-left corner
    inside the scanned window, and its ends are what the two inner loops
    find from there. *)
Definition region_ok (sheet : Worksheet) (rng : table_range) : Prop :=
  45 <= table_start_row rng < MAX_ROW_IDX /\
  1 <= table_start_col rng < max_column sheet /\
  has_upper_left_border (corner sheet rng) = true /\
  table_end_col rng =
    find_end_col sheet (table_start_row rng)
      (range (table_start_col rng + 1) (max_column sheet + 1)) (table_start_col rng) /\
  table_end_row rng =
    find_end_row sheet (table_end_col rng)
      (range (table_start_row rng + 1) (MAX_ROW_IDX + 1)) (table_start_row rng).

(** The corner of a region lies in no region found before it. *)
Definition corners_fresh (rs : list table_range) : Prop :=
  forall i j a b, i < j -> rs !! i = Some a -> rs !! j = Some b ->
                  in_range a (table_start_row b) (table_start_col b) = false.

Definition corner_is_empty (sheet : Worksheet) (rng : table_range) : bool :=
  is_empty_cell (corner sheet rng).

Record scan_inv (sheet : Worksheet) (st : scan_state) : Prop := {
  inv_shape : mask_shape sheet (visited st);
  inv_flag : is_complex st = false;
  inv_regions : Forall (region_ok sheet) (table_ranges st);
  inv_marked : forall rng r c,
      In rng (table_ranges st) -> in_range rng r c = true ->
      get_visited (visited st) r c = OK true;
  inv_fresh : corners_fresh (table_ranges st);
  inv_simple :
    simple_table_workbooks st =
    map (sub_grid sheet)
        (List.filter (fun rng => negb (corner_is_empty sheet rng)) (table_ranges st));
  inv_complex :
    complex_table_workbooks st =
    map (sub_grid sheet) (List.filter (corner_is_empty sheet) (table_ranges st))
}.

(** The two regions that the scan of [crossing_sheet] gives. *)
Definition crossing_first : table_range :=
  {| table_start_row := 45; table_start_col := 3;
     table_end_row := 46; table_end_col := 3 |}.

Definition crossing_second : table_range :=
  {| table_start_row := 46; table_start_col := 1;
     table_end_row := 46; table_end_col := 4 |}.

(** The region that the scan of [unclosed_sheet] gives. *)
Definition unclosed_region : table_range :=
  {| table_start_row := 45; table_start_col := 1;
     table_end_row := 45; table_end_col := 1 |}.

(** The branches that a walk through an empty dictionary creates. *)
Fixpoint branch_chain (nodes : list string) (leaf : dict) : pyval :=
  match nodes with
  | [] => PyDict leaf
  | node :: rest => PyDict [(Some node, branch_chain rest leaf)]
  end.

Definition is_dict (v : pyval) : bool :=
  match v with PyDict _ => true | _ => false end.

(** The walk of [add_data] down [nodes] meets dictionaries only: every label
    before the last is either missing where it is looked up or bound to a
    dictionary, and the last label is assigned in a dictionary. *)
Fixpoint stays_in_dicts (current_level : pyval) (nodes : list string) : bool :=
  match nodes with
  | [] => false
  | [last] => is_dict current_level
  | node :: rest =>
      match current_level with
      | PyDict d =>
          match dict_get (Some node) d with
          | None => true
          | Some next_level => stays_in_dicts next_level rest
          end
      | _ => false
      end
  end.

(** The labels of the data rows of a sub-grid. *)
Definition is_row_label (ws : Worksheet) (s : string) : Prop :=
  exists r, 2 <= r <= max_row ws /\ s = strip (serialize_value (cell ws r 1)).

(** An entry of the top level of a reconstructed tree: the key is the label
    of a data row and the value is a dictionary. *)
Definition top_entry (ws : Worksheet) (kv : pykey * pyval) : Prop :=
  (exists s, fst kv = Some s /\ is_row_label ws s) /\ is_dict (snd kv) = true.

(** ** Sample worksheets *)

Definition worksheet_of_rows (rows : list (list (option string))) : Worksheet :=
  {| max_row := length rows;
     max_column := length (hd [] rows);
     contents := fun r c =>
       {| cd_value := if (1 <=? r) && (1 <=? c)
                      then nth (c - 1) (nth (r - 1) rows []) None else None;
          cd_border := no_border;
          cd_fill := "00000000" |} |}.

(** Row labels with 0, 3, 3 and 6 leading spaces. *)
Definition indented_sample : Worksheet :=
  worksheet_of_rows
    [ [None; Some "Jan"];
      [Some "A"; None];
      [Some "   B"; None];
      [Some "   C"; Some "1"];
      [Some "      D"; Some "2"] ].

(** A label that is also a column header, below a row that has data. *)
Definition header_label_sample : Worksheet :=
  worksheet_of_rows
    [ [None; Some "Jan"];
      [Some "A"; Some "100"];
      [Some " Jan"; None];
      [Some "  X"; None];
      [Some "   Y"; Some "5"] ].

(** A row with data below a label that is also a column header of the leaf
    above it. *)
Definition leaf_text_sample : Worksheet :=
  worksheet_of_rows
    [ [None; Some "Jan"];
      [Some "A"; Some "100"];
      [Some " Jan"; None];
      [Some "  Y"; Some "5"] ].

(** A row two levels down with no row one level down before it. *)
Definition orphan_sample : Worksheet :=
  worksheet_of_rows
    [ [None; Some "Jan"];
      [Some "A"; None];
      [Some "  C"; Some "5"] ].

Definition orphan_tree : dict :=
  [(Some "A", PyDict [(Some "C", PyDict [(Some "Jan", PyStr "5")])])].

(** The row "  Cash" of the sheet, with the data cells "100" and "200". *)
Definition cash_row : list Cell :=
  row_cells (worksheet_of_rows [[Some " Cash"; Some "100"; Some "200"]]) 1.

Definition flat_sample : Worksheet :=
  worksheet_of_rows
    [ [Some "Month"; Some "Savings"; None];
      [Some "January"; Some "$250"; None];
      [Some "February"; Some "$80"; None] ].

Definition medium : Side := {| style := Some "medium" |}.

Definition edges (t b l r : bool) : Border.t :=
  Border.mk (if t then medium else no_side) (if b then medium else no_side)
            (if l then medium else no_side) (if r then medium else no_side).

Definition boxed (v : option string) (t b l r : bool) : CellData :=
  {| cd_value := v; cd_border := edges t b l r; cd_fill := "00000000" |}.

Definition at_cell (r c r' c' : nat) : bool := (r =? r') && (c =? c').

(** One upper-left corner at (45, 1) and no closing corner anywhere. *)
Definition unclosed_sheet : Worksheet :=
  {| max_row := 60; max_column := 4;
     contents := fun r c =>
       if at_cell r c 45 1 then boxed (Some "x") true false true false
       else blank |}.

(** A one-column table in column 3, rows 45..46, and a table that starts at
    (46, 1) and closes at (46, 4). *)
Definition crossing_sheet : Worksheet :=
  {| max_row := 60; max_column := 6;
     contents := fun r c =>
       if at_cell r c 45 3 then boxed (Some "x") true false true true
       else if at_cell r c 46 3 then boxed (Some "y") false true false true
       else if at_cell r c 46 1 then boxed None true false true false
       else if at_cell r c 46 4 then boxed (Some "z") true true false true
       else blank |}.

(** A closed simple table at (45,1)-(46,2) and a closed complex one at
    (50,2)-(51,3). *)
Definition two_tables_sheet : Worksheet :=
  {| max_row := 60; max_column := 5;
     contents := fun r c =>
       if at_cell r c 45 1 then boxed (Some "h1") true false true false
       else if at_cell r c 45 2 then boxed (Some "h2") true false false true
       else if at_cell r c 46 1 then boxed (Some "v1") false true true false
       else if at_cell r c 46 2 then boxed (Some "v2") false true false true
       else if at_cell r c 50 2 then boxed None true false true false
       else if at_cell r c 50 3 then boxed (Some "Jan") true false false true
       else if at_cell r c 51 2 then boxed (Some "A") false true true false
       else if at_cell r c 51 3 then boxed (Some "1") false true false true
       else blank |}.

(** ** Further functions of the source and vocabulary for their properties *)

(** The comparison of two fill colours, with its two hard-wired answers. *)
Definition has_same_fill_color (prev_cell new_cell : Cell) : bool :=
  if (row prev_cell =? 45) && (row new_cell =? 46)
     && (column prev_cell =? 12) && (column new_cell =? 12)
  then false
  else if (row prev_cell =? 55) && (row new_cell =? 56)
          && (column prev_cell =? 12) && (column new_cell =? 12)
  then true
  else String.eqb (fill_bgColor prev_cell) (fill_bgColor new_cell).

(** The two ordered pairs of positions whose answer is hard-wired. *)
Definition wired_pair (a b : Cell) : Prop :=
  column a = 12 /\ column b = 12 /\
  ((row a = 45 /\ row b = 46) \/ (row a = 55 /\ row b = 56)).

(** Labels that all start with the same number of blanks. *)
Definition uniform_indent (row_headers : list string) : Prop :=
  forall a b, In a row_headers -> In b row_headers ->
              leading_spaces a = leading_spaces b.

(** What one data row adds to the tree of a table without indentation. *)
Definition row_entry (col_headers : list string) (row : list Cell)
  : list (pykey * pyval) :=
  match row with
  | [] => []
  | row0 :: data_cells =>
      if any_populated data_cells
      then [(Some (strip (serialize_value row0)),
             PyDict (leaf_of col_headers data_cells))]
      else []
  end.

(** The tree of a table without indentation: one entry per populated row,
    in row order, a later row taking the place of an earlier one that has
    the same label. *)
Definition flat_tree (ws : Worksheet) : dict :=
  py_dict (flat_map (row_entry (map serialize_value (tl (row_cells ws 1))))
                    (iter_rows ws 2)).

(** A sub-grid whose data rows are category rows only. *)
Definition categories_sample : Worksheet :=
  worksheet_of_rows
    [ [None; Some "Jan"];
      [Some "Assets"; None];
      [Some "   Current Assets"; None] ].

(** A sub-grid without indentation, with one label used twice. *)
Definition unindented_sample : Worksheet :=
  worksheet_of_rows
    [ [None; Some "Jan"];
      [Some "Cash"; Some "1"];
      [Some "Notes"; None];
      [Some "Cash"; Some "2"] ].

(** A tree with one leaf, "Cash", below "Assets". *)
Definition assets_tree : dict :=
  [(Some "Assets", PyDict [(Some "Cash", PyDict [(Some "Jan", PyStr "1")])])].

(** The cells that the scan examines for a corner. *)
Definition in_window (sheet : Worksheet) (r c : nat) : Prop :=
  45 <= r < MAX_ROW_IDX /\ 1 <= c < max_column sheet.

(** The order in which the scan visits the cells. *)
Definition scanned_before (r c r' c' : nat) : Prop :=
  r < r' \/ (r = r' /\ c < c').

(** The corners of the regions come in the order of the scan. *)
Definition scan_ordered (rs : list table_range) : Prop :=
  forall i j a b, i < j -> rs !! i = Some a -> rs !! j = Some b ->
    scanned_before (table_start_row a) (table_start_col a)
                   (table_start_row b) (table_start_col b).

(** Every mark of the mask lies in a region that has been emitted. *)
Definition marks_sound (st : scan_state) : Prop :=
  forall r c, get_visited (visited st) r c = OK true ->
              exists rng, In rng (table_ranges st) /\ in_range rng r c = true.

(** Every upper-left corner that the scan has passed lies in a region. *)
Definition corners_covered (sheet : Worksheet) (rs : list table_range)
    (row_idx col_idx : nat) : Prop :=
  forall r c, in_window sheet r c -> scanned_before r c row_idx col_idx ->
              has_upper_left_border (cell sheet r c) = true ->
              exists rng, In rng rs /\ in_range rng r c = true.

(** What holds when the scan is about to examine [(row_idx, col_idx)]. *)
Record scan_progress (sheet : Worksheet) (row_idx col_idx : nat) (st : scan_state)
  : Prop := {
  progress_inv : scan_inv sheet st;
  progress_marks : marks_sound st;
  progress_ordered : scan_ordered (table_ranges st);
  progress_starts : forall rng, In rng (table_ranges st) ->
      scanned_before (table_start_row rng) (table_start_col rng) row_idx col_idx;
  progress_covered : corners_covered sheet (table_ranges st) row_idx col_idx
}.

(** The two regions that the scan of [two_tables_sheet] gives. *)
Definition two_tables_first : table_range :=
  {| table_start_row := 45; table_start_col := 1;
     table_end_row := 46; table_end_col := 2 |}.

Definition two_tables_second : table_range :=
  {| table_start_row := 50; table_start_col := 2;
     table_end_row := 51; table_end_col := 3 |}.

(** * Properties *)

(** ** Loops and ranges *)

Lemma in_range_list (a b x : nat) : In x (range a b) <-> a <= x < b.
Proof. unfold range. rewrite in_seq. lia. Qed.

Lemma bind_OK {A B : Type} (m : result A) (f : A -> result B) (b : B) :
  (m ≫= f) = OK b -> exists a, m = OK a /\ f a = OK b.
Proof. destruct m; simpl; intros H; try discriminate. eauto. Qed.

(** A loop whose body keeps an invariant and never raises on the elements it
    is run on ends normally, in a state that satisfies the invariant. *)
Lemma for_each_invariant {A S : Type} (I : S -> Prop) (body : S -> A -> result S)
    (xs : list A) :
  (forall s x, In x xs -> I s -> exists s', body s x = OK s' /\ I s') ->
  forall st, I st -> exists st', for_each body xs st = OK st' /\ I st'.
Proof.
  induction xs as [|x xs IH]; intros Hbody st Hst; simpl.
  - eauto.
  - destruct (Hbody st x) as (s' & Hx & Hs'); [now left | assumption |].
    rewrite Hx. simpl. apply IH; [|assumption].
    intros s y Hy. apply Hbody. now right.
Qed.

(** ** Border classifier *)

Lemma is_medium_spec (s : Side) : is_medium s = true <-> style s = Some "medium".
Proof.
  unfold is_medium. destruct (style s) as [st|].
  - rewrite String.eqb_eq. split; congruence.
  - split; discriminate.
Qed.

Lemma corner_test (a b : Side) :
  (if is_medium a && is_medium b then true else false) = true <->
  style a = Some "medium" /\ style b = Some "medium".
Proof.
  rewrite <- !is_medium_spec.
  destruct (is_medium a), (is_medium b); simpl; intuition congruence.
Qed.

(** C8. A cell is an upper-left corner iff its top and left edge styles are
    both "medium", a top-right corner iff its top and right edge styles are,
    and a bottom-right corner iff its bottom and right edge styles are; the
    three predicates depend on nothing but the border of the cell. *)
Theorem border_classifier_spec :
  (forall c : Cell,
      (has_upper_left_border c = true <->
       style (Border.top (border c)) = Some "medium" /\
       style (Border.left (border c)) = Some "medium") /\
      (has_top_right_border c = true <->
       style (Border.top (border c)) = Some "medium" /\
       style (Border.right (border c)) = Some "medium") /\
      (has_bottom_right_border c = true <->
       style (Border.bottom (border c)) = Some "medium" /\
       style (Border.right (border c)) = Some "medium")) /\
  (forall x y : Cell,
      border x = border y ->
      has_upper_left_border x = has_upper_left_border y /\
      has_top_right_border x = has_top_right_border y /\
      has_bottom_right_border x = has_bottom_right_border y).
Proof.
  split.
  - intros c. unfold has_upper_left_border, has_top_right_border,
      has_bottom_right_border. split; [|split]; apply corner_test.
  - intros x y E. unfold has_upper_left_border, has_top_right_border,
      has_bottom_right_border. rewrite E. repeat split.
Qed.

(** ** Dictionaries *)

Lemma key_eqb_eq (a b : pykey) : key_eqb a b = true <-> a = b.
Proof.
  destruct a as [x|], b as [y|]; simpl; try (split; congruence).
  rewrite String.eqb_eq. split; congruence.
Qed.

Lemma key_eqb_refl (a : pykey) : key_eqb a a = true.
Proof. now apply key_eqb_eq. Qed.

Lemma key_eqb_neq (a b : pykey) : a <> b -> key_eqb a b = false.
Proof.
  intros H. destruct (key_eqb a b) eqn:E; [|reflexivity].
  apply key_eqb_eq in E. contradiction.
Qed.

Lemma dict_get_set_eq (k : pykey) (v : pyval) (d : dict) :
  dict_get k (dict_set k v d) = Some v.
Proof.
  induction d as [|[k' v'] d IH]; simpl.
  - now rewrite key_eqb_refl.
  - destruct (key_eqb k k') eqn:E; simpl; rewrite E; [reflexivity | exact IH].
Qed.

Lemma dict_get_set_ne (k k' : pykey) (v : pyval) (d : dict) :
  k <> k' -> dict_get k' (dict_set k v d) = dict_get k' d.
Proof.
  intros Hne. induction d as [|[k0 v0] d IH]; simpl.
  - rewrite key_eqb_neq; [reflexivity | congruence].
  - destruct (key_eqb k k0) eqn:E; simpl.
    + apply key_eqb_eq in E. subst k0.
      rewrite key_eqb_neq; [reflexivity | congruence].
    + destruct (key_eqb k' k0); [reflexivity | exact IH].
Qed.

Lemma dict_keys_set (k k' : pykey) (v : pyval) (d : dict) :
  In k' (dict_keys (dict_set k v d)) <-> k' = k \/ In k' (dict_keys d).
Proof.
  unfold dict_keys. induction d as [|[k0 v0] d IH]; simpl.
  - intuition.
  - destruct (key_eqb k k0) eqn:E; simpl.
    + apply key_eqb_eq in E. subst k0. intuition.
    + rewrite IH. intuition.
Qed.

Lemma dict_set_Forall (P : pykey * pyval -> Prop) (k : pykey) (v : pyval) (d : dict) :
  (forall k', k' = k -> P (k', v)) -> Forall P d -> Forall P (dict_set k v d).
Proof.
  intros Hk. induction 1 as [|[k0 v0] d H0 Hd IH]; simpl.
  - constructor; [now apply Hk | constructor].
  - destruct (key_eqb k k0) eqn:E.
    + apply key_eqb_eq in E. constructor; [now apply Hk | assumption].
    + constructor; assumption.
Qed.

Lemma py_dict_keys_from (pairs : list (pykey * pyval)) (d : dict) (k : pykey) :
  In k (dict_keys (fold_left (fun d kv => dict_set (fst kv) (snd kv) d) pairs d)) <->
  In k (dict_keys d) \/ In k (map fst pairs).
Proof.
  revert d. induction pairs as [|[k0 v0] pairs IH]; intros d; simpl.
  - intuition.
  - rewrite IH, dict_keys_set. intuition.
Qed.

Lemma py_dict_keys (pairs : list (pykey * pyval)) (k : pykey) :
  In k (dict_keys (py_dict pairs)) <-> In k (map fst pairs).
Proof. unfold py_dict. rewrite py_dict_keys_from. simpl. intuition. Qed.

Lemma py_dict_get_from (pairs : list (pykey * pyval)) (d : dict) (k : pykey) :
  ~ In k (map fst pairs) ->
  dict_get k (fold_left (fun d kv => dict_set (fst kv) (snd kv) d) pairs d) = dict_get k d.
Proof.
  revert d. induction pairs as [|[k0 v0] pairs IH]; intros d Hk; simpl in *.
  - reflexivity.
  - rewrite IH by tauto. apply dict_get_set_ne. tauto.
Qed.

Lemma remove_none_str_keys (d : dict) :
  Forall (fun kv => fst kv <> None) d -> remove_none_key_value_pairs d = d.
Proof.
  unfold remove_none_key_value_pairs. induction 1 as [|[k v] d Hk Hd IH]; simpl.
  - reflexivity.
  - destruct k as [s|]; simpl in *; [|congruence]. now rewrite IH.
Qed.

Lemma dict_keys_Forall (P : pykey -> Prop) (d : dict) :
  (forall k, In k (dict_keys d) -> P k) -> Forall (fun kv => P (fst kv)) d.
Proof.
  intros H. apply List.Forall_forall. intros [k v] Hin. apply H.
  unfold dict_keys. apply in_map_iff. now exists (k, v).
Qed.

(** ** Flat tables *)

Lemma map_fst_combine_same {A B : Type} (l : list A) (l' : list B) :
  length l = length l' -> map fst (combine l l') = l.
Proof.
  revert l'. induction l as [|a l IH]; intros [|b l'] H; simpl in *;
    try discriminate; [reflexivity|].
  f_equal. apply IH. lia.
Qed.

Lemma Forall2_map_right {A B : Type} (R : A -> B -> Prop) (f : A -> B) (l : list A) :
  (forall x, In x l -> R x (f x)) -> Forall2 R l (map f l).
Proof.
  induction l as [|a l IH]; intros H; simpl; constructor.
  - apply H. now left.
  - apply IH. intros x Hx. apply H. now right.
Qed.

Lemma row_cells_length (ws : Worksheet) (r : nat) :
  length (row_cells ws r) = max_column ws.
Proof. unfold row_cells, range. rewrite length_map, length_seq. lia. Qed.

Lemma zipped_record_keys (ws : Worksheet) (r : nat) (k : pykey) :
  In k (dict_keys (zipped_record ws r)) <->
  In k (str_keys (map serialize_value (row_cells ws 1))).
Proof.
  unfold zipped_record. rewrite py_dict_keys, map_fst_combine_same; [reflexivity|].
  unfold str_keys. rewrite !length_map, !row_cells_length. reflexivity.
Qed.

Lemma str_keys_not_None (l : list string) : ~ In None (str_keys l).
Proof.
  unfold str_keys. rewrite in_map_iff. intros (s & E & _). discriminate.
Qed.

(** The cleanup of a record never removes anything: a serialized header is a
    text, also for an empty header cell (the text "None"). *)
Lemma zipped_record_cleanup (ws : Worksheet) (r : nat) :
  remove_none_key_value_pairs (zipped_record ws r) = zipped_record ws r.
Proof.
  apply remove_none_str_keys.
  apply (dict_keys_Forall (fun k => k <> None)).
  intros k Hk E. subst k. apply zipped_record_keys in Hk.
  exact (str_keys_not_None _ Hk).
Qed.

Lemma process_simple_table_unfold (ws : Worksheet) :
  process_simple_table ws =
  map (fun r => remove_none_key_value_pairs (zipped_record ws r))
      (range 2 (max_row ws + 1)).
Proof.
  unfold process_simple_table, iter_rows. rewrite map_map. reflexivity.
Qed.

(** Flattening a sub-grid gives one record per row after the first, and the
    keys of the record of a row are the serialized values of the header row,
    all of them. *)
Lemma process_simple_table_keys (ws : Worksheet) :
  length (process_simple_table ws) = max_row ws - 1 /\
  Forall2
    (fun r record =>
       forall k : pykey,
         In k (dict_keys record) <->
         In k (str_keys (map serialize_value (row_cells ws 1))))
    (range 2 (max_row ws + 1))
    (process_simple_table ws).
Proof.
  rewrite process_simple_table_unfold. split.
  - rewrite length_map. unfold range. rewrite length_seq. lia.
  - apply Forall2_map_right. intros r _ k.
    rewrite zipped_record_cleanup. apply zipped_record_keys.
Qed.

(** The cleanup removes nothing from any record: a record is what the zip of
    the headers and the values gives. *)
Lemma process_simple_table_keeps_headers (ws : Worksheet) :
  process_simple_table ws = map (zipped_record ws) (range 2 (max_row ws + 1)).
Proof.
  rewrite process_simple_table_unfold. apply map_ext. intros r.
  apply zipped_record_cleanup.
Qed.

(** C3. The third column of [flat_sample] has an empty header cell and empty
    data cells, and its pair is not excluded from the records: the header
    and the values are serialized to the text "None" before the cleanup
    looks for [None], so every record keeps the pair "None": "None". *)
Theorem empty_pair_is_kept :
  is_empty_cell (cell flat_sample 1 3) = true /\
  is_empty_cell (cell flat_sample 2 3) = true /\
  is_empty_cell (cell flat_sample 3 3) = true /\
  process_simple_table flat_sample =
  [ [(Some "Month", PyStr "January"); (Some "Savings", PyStr "$250");
     (Some "None", PyStr "None")];
    [(Some "Month", PyStr "February"); (Some "Savings", PyStr "$80");
     (Some "None", PyStr "None")] ].
Proof. repeat split. Qed.

(** ** Hierarchical tables: attaching a leaf *)

(** One step of the walk, for a label that is not the last one. *)
Lemma add_data_at_step (leaf : dict) (d : dict) (node : string) (rest : list string) :
  rest <> [] ->
  add_data_at (PyDict d) (node :: rest) leaf =
  (child ← add_data_at
             (match dict_get (Some node) d with
              | Some next_level => next_level
              | None => PyDict []
              end) rest leaf;
   OK (PyDict (dict_set (Some node) child d))).
Proof.
  intros Hne. destruct rest as [|node' rest]; [congruence|].
  simpl. destruct (dict_get (Some node) d); reflexivity.
Qed.

Lemma stays_in_dicts_step (d : dict) (node : string) (rest : list string) :
  rest <> [] ->
  stays_in_dicts (PyDict d) (node :: rest) =
  match dict_get (Some node) d with
  | None => true
  | Some next_level => stays_in_dicts next_level rest
  end.
Proof. intros Hne. destruct rest as [|node' rest]; [congruence | reflexivity]. Qed.

Ltac walk_step H :=
  rewrite add_data_at_step in H by discriminate;
  apply bind_OK in H;
  let child := fresh "child" in
  let Hchild := fresh "Hchild" in
  destruct H as (child & Hchild & H);
  inversion H; subst; clear H.

Lemma add_data_at_is_dict (nodes : list string) (leaf : dict) :
  forall v v', add_data_at v nodes leaf = OK v' -> is_dict v' = true.
Proof.
  destruct nodes as [|node [|node' rest]]; intros v v' H;
    [discriminate | |]; destruct v as [| |d]; try discriminate.
  - now inversion H.
  - walk_step H. reflexivity.
Qed.

(** After a successful attachment the leaf is what the path leads to. *)
Lemma add_data_at_get_path (leaf : dict) (nodes : list string) :
  forall v v', add_data_at v nodes leaf = OK v' ->
               get_path v' nodes = Some (PyDict leaf).
Proof.
  induction nodes as [|node rest IH]; intros v v' H; [discriminate|].
  destruct rest as [|node' rest]; destruct v as [| |d]; try discriminate.
  - inversion H; subst v'. cbn [get_path]. now rewrite dict_get_set_eq.
  - walk_step H. cbn [get_path]. rewrite dict_get_set_eq.
    eapply IH. eassumption.
Qed.

(** The top level of the tree changes at one key only, the first label of the
    path, and what it maps to afterwards is a dictionary. *)
Lemma add_data_at_top (leaf : dict) (d : dict) (node : string) (rest : list string) :
  forall v', add_data_at (PyDict d) (node :: rest) leaf = OK v' ->
             exists child, is_dict child = true /\
                           v' = PyDict (dict_set (Some node) child d).
Proof.
  intros v' H. destruct rest as [|node' rest].
  - inversion H. now exists (PyDict leaf).
  - walk_step H. eexists. split; [|reflexivity].
    eapply add_data_at_is_dict. eassumption.
Qed.

(** A walk that starts in an empty dictionary creates one branch per label. *)
Lemma add_data_at_empty (leaf : dict) (nodes : list string) :
  nodes <> [] -> add_data_at (PyDict []) nodes leaf = OK (branch_chain nodes leaf).
Proof.
  induction nodes as [|node rest IH]; intros Hne; [congruence|].
  destruct rest as [|node' rest]; [reflexivity|].
  rewrite add_data_at_step by discriminate. cbn [dict_get].
  rewrite IH by discriminate. reflexivity.
Qed.

(** A label that the dictionary reached by the walk does not have: an empty
    branch is made for it and the walk goes on inside, without an exception. *)
Lemma add_data_at_missing (leaf : dict) (d : dict) (node : string) (rest : list string) :
  dict_get (Some node) d = None -> rest <> [] ->
  add_data_at (PyDict d) (node :: rest) leaf =
  OK (PyDict (dict_set (Some node) (branch_chain rest leaf) d)).
Proof.
  intros Hm Hne. rewrite add_data_at_step by assumption.
  rewrite Hm, add_data_at_empty by assumption. reflexivity.
Qed.

(** A walk that reaches a text cannot go on. *)
Lemma add_data_at_text (leaf : dict) (s : string) (nodes : list string) :
  nodes <> [] -> add_data_at (PyStr s) nodes leaf = TypeError.
Proof.
  destruct nodes as [|node [|node' rest]]; intros H; [congruence | reflexivity..].
Qed.

Lemma add_data_get_path (t t' : dict) (nodes col_headers : list string)
    (data_cells : list Cell) :
  add_data t nodes col_headers data_cells = OK t' ->
  get_path (PyDict t') nodes = Some (PyDict (leaf_of col_headers data_cells)).
Proof.
  unfold add_data. intros H. apply bind_OK in H. destruct H as (v & Hv & H).
  destruct v as [| |d]; try discriminate. inversion H; subst d.
  eapply add_data_at_get_path. exact Hv.
Qed.

(** ** Hierarchical tables: the value map of a leaf *)

Lemma combine_lookup {A B : Type} (l : list A) (l' : list B) (i : nat) (a : A) (b : B) :
  l !! i = Some a -> l' !! i = Some b -> combine l l' !! i = Some (a, b).
Proof.
  revert l' i. induction l as [|x l IH]; intros [|y l'] [|i] Ha Hb;
    simpl in *; try discriminate.
  - congruence.
  - now apply IH.
Qed.

Lemma combine_lookup_inv {A B : Type} (l : list A) (l' : list B) (i : nat) (p : A * B) :
  combine l l' !! i = Some p -> l !! i = Some (fst p) /\ l' !! i = Some (snd p).
Proof.
  revert l' i. induction l as [|x l IH]; intros [|y l'] [|i] H;
    simpl in *; try discriminate.
  - inversion H. now split.
  - now apply IH.
Qed.

(** [dict(pairs)] maps a key to the value of its last pair. *)
Lemma py_dict_last_wins (pairs : list (pykey * pyval)) :
  forall (d : dict) (i : nat) (k : pykey) (v : pyval),
    pairs !! i = Some (k, v) ->
    (forall j kv, i < j -> pairs !! j = Some kv -> fst kv <> k) ->
    dict_get k (fold_left (fun d kv => dict_set (fst kv) (snd kv) d) pairs d) = Some v.
Proof.
  induction pairs as [|[k0 v0] pairs IH]; intros d i k v Hi Hlater; [discriminate|].
  destruct i as [|i]; simpl in *.
  - inversion Hi; subst k0 v0. rewrite py_dict_get_from.
    + apply dict_get_set_eq.
    + rewrite in_map_iff. intros ([k' v'] & E & Hin). simpl in E. subst k'.
      apply list_elem_of_In, list_elem_of_lookup in Hin. destruct Hin as (j & Hj).
      apply (Hlater (S j) (k, v')); [lia | exact Hj | reflexivity].
  - apply (IH _ i); [exact Hi|].
    intros j kv Hj Hkv. apply (Hlater (S j) kv); [lia | exact Hkv].
Qed.

(** Header [i] is paired with data cell [i]; of two equal headers the later
    one keeps the key. *)
Lemma leaf_of_positional (col_headers : list string) (data_cells : list Cell)
    (i : nat) (h : string) (d : Cell) :
  col_headers !! i = Some h -> data_cells !! i = Some d ->
  (forall j, i < j -> j < length data_cells -> col_headers !! j <> Some h) ->
  dict_get (Some h) (leaf_of col_headers data_cells) = Some (PyStr (serialize_value d)).
Proof.
  intros Hh Hd Hlater. unfold leaf_of, py_dict.
  apply (py_dict_last_wins _ [] i).
  - apply combine_lookup.
    + unfold str_keys. now rewrite list_lookup_fmap_Some_2 with (x := h).
    + now rewrite list_lookup_fmap_Some_2 with (x := d).
  - intros j [k v] Hij Hj E. simpl in E. subst k.
    apply combine_lookup_inv in Hj. simpl in Hj. destruct Hj as [Hk Hv].
    apply (Hlater j Hij).
    + apply lookup_lt_Some in Hv. now rewrite length_map in Hv.
    + unfold str_keys in Hk. change (map Some col_headers) with (Some <$> col_headers) in Hk.
      rewrite list_lookup_fmap in Hk. destruct (col_headers !! j); simpl in Hk; congruence.
Qed.

Lemma any_populated_false (data_cells : list Cell) :
  (forall c, In c data_cells -> value c = None) -> any_populated data_cells = false.
Proof.
  intros H. unfold any_populated. induction data_cells as [|c l IH]; simpl.
  - reflexivity.
  - rewrite (H c) by now left. simpl. apply IH. intros x Hx. apply H. now right.
Qed.

Lemma any_populated_true (data_cells : list Cell) :
  (exists c, In c data_cells /\ value c <> None) -> any_populated data_cells = true.
Proof.
  intros (c & Hin & Hv). unfold any_populated. apply existsb_exists.
  exists c. split; [assumption|]. destruct (value c); congruence.
Qed.

Lemma process_row_nodes (col_headers : list string) (t : dict) (nodes : list string)
    (row0 : Cell) (data_cells : list Cell) (st' : build_state) :
  process_row col_headers (t, nodes) (row0 :: data_cells) = OK st' ->
  snd st' = firstn (leading_spaces (serialize_value row0)) nodes
            ++ [strip (serialize_value row0)].
Proof.
  unfold process_row, leading_spaces. destruct (any_populated data_cells); intros H.
  - apply bind_OK in H. destruct H as (t' & _ & H). now inversion H.
  - now inversion H.
Qed.

(** ** Hierarchical tables: when the attachment completes *)

Lemma add_data_at_total (leaf : dict) (nodes : list string) :
  forall v, stays_in_dicts v nodes = true -> exists v', add_data_at v nodes leaf = OK v'.
Proof.
  induction nodes as [|node rest IH]; intros v H; [discriminate|].
  destruct rest as [|node' rest]; destruct v as [| |d]; try discriminate.
  - simpl. eauto.
  - rewrite stays_in_dicts_step in H by discriminate.
    rewrite add_data_at_step by discriminate.
    destruct (dict_get (Some node) d) as [next_level|].
    + destruct (IH _ H) as (child & ->). simpl. eauto.
    + rewrite add_data_at_empty by discriminate. simpl. eauto.
Qed.

Lemma add_data_at_raises (leaf : dict) (nodes : list string) :
  nodes <> [] ->
  forall v, stays_in_dicts v nodes = false -> add_data_at v nodes leaf = TypeError.
Proof.
  induction nodes as [|node rest IH]; intros Hne v H; [congruence|].
  destruct rest as [|node' rest]; destruct v as [| |d]; try discriminate;
    try reflexivity.
  rewrite stays_in_dicts_step in H by discriminate.
  rewrite add_data_at_step by discriminate.
  destruct (dict_get (Some node) d) as [next_level|]; [|discriminate].
  rewrite (IH ltac:(discriminate) _ H). reflexivity.
Qed.

Lemma add_data_total (t : dict) (nodes col_headers : list string)
    (data_cells : list Cell) :
  stays_in_dicts (PyDict t) nodes = true ->
  exists t', add_data t nodes col_headers data_cells = OK t'.
Proof.
  intros H. unfold add_data.
  destruct (add_data_at_total (leaf_of col_headers data_cells) _ _ H) as (v & Hv).
  rewrite Hv. simpl. pose proof (add_data_at_is_dict _ _ _ _ Hv) as Hd.
  destruct v; try discriminate. eauto.
Qed.

(** X10. The leaf rule of a data row.  With no populated data cell the tree is
    left as it is.  With one, the path of the row leads, whenever the row
    returns, to the value map of the row, in which header [i] is paired with
    data cell [i]; and the row does return when the walk down its path meets
    dictionaries only.  In both cases the stripped label of the row ends the
    running path, so that a deeper row that follows has it as an ancestor. *)
Lemma process_row_leaf_rule (col_headers : list string) (processed_table : dict)
    (nodes : list string) (row0 : Cell) (data_cells : list Cell) :
  let path := firstn (leading_spaces (serialize_value row0)) nodes
              ++ [strip (serialize_value row0)] in
  let outcome := process_row col_headers (processed_table, nodes) (row0 :: data_cells) in
  ((forall c, In c data_cells -> value c = None) ->
     outcome = OK (processed_table, path)) /\
  ((exists c, In c data_cells /\ value c <> None) ->
     (forall t p, outcome = OK (t, p) ->
        p = path /\
        get_path (PyDict t) path = Some (PyDict (leaf_of col_headers data_cells))) /\
     (stays_in_dicts (PyDict processed_table) path = true ->
        exists t, outcome = OK (t, path))) /\
  (forall i h d,
     col_headers !! i = Some h -> data_cells !! i = Some d ->
     (forall j, i < j -> j < length data_cells -> col_headers !! j <> Some h) ->
     dict_get (Some h) (leaf_of col_headers data_cells)
     = Some (PyStr (serialize_value d))) /\
  (forall t row1 data1 st',
     leading_spaces (serialize_value row0) < leading_spaces (serialize_value row1) ->
     process_row col_headers (t, path) (row1 :: data1) = OK st' ->
     snd st' = path ++ [strip (serialize_value row1)]).
Proof.
  intros path outcome. split; [|split; [|split]].
  - intros Hempty. unfold outcome, process_row.
    rewrite (any_populated_false _ Hempty). reflexivity.
  - intros Hpop. split.
    + intros t p Hout. split.
      * exact (process_row_nodes _ _ _ _ _ _ Hout).
      * unfold outcome, process_row in Hout.
        rewrite (any_populated_true _ Hpop) in Hout.
        apply bind_OK in Hout. destruct Hout as (t' & Ht' & E).
        inversion E; subst t' p. eapply add_data_get_path. exact Ht'.
    + intros Hwalk. unfold outcome, process_row.
      rewrite (any_populated_true _ Hpop).
      destruct (add_data_total _ _ col_headers data_cells Hwalk) as (t' & Ht').
      fold (leading_spaces (serialize_value row0)). fold path.
      rewrite Ht'. simpl. eauto.
  - intros i h d. apply leaf_of_positional.
  - intros t row1 data1 st' Hdeeper Hrow.
    rewrite (process_row_nodes _ _ _ _ _ _ Hrow). f_equal.
    apply firstn_all2. unfold path. rewrite length_app, length_firstn. simpl. lia.
Qed.

(** ** Hierarchical tables: the top level of the tree *)

Lemma for_each_preserves {A S : Type} (I : S -> Prop) (body : S -> A -> result S)
    (xs : list A) :
  (forall s x s', In x xs -> I s -> body s x = OK s' -> I s') ->
  forall st st', I st -> for_each body xs st = OK st' -> I st'.
Proof.
  induction xs as [|x xs IH]; intros Hbody st st' Hst H; simpl in H.
  - inversion H. now subst.
  - apply bind_OK in H. destruct H as (s1 & Hx & Hrest).
    apply (IH (fun s y s' Hy => Hbody s y s' (or_intror Hy)) s1 st'); [|exact Hrest].
    apply (Hbody st x s1); [now left | assumption | assumption].
Qed.

Lemma row_cells_head (ws : Worksheet) (r : nat) (row0 : Cell) (data_cells : list Cell) :
  row_cells ws r = row0 :: data_cells -> row0 = cell ws r 1.
Proof.
  unfold row_cells, range. destruct (max_column ws + 1 - 1) as [|n]; simpl.
  - discriminate.
  - congruence.
Qed.

Lemma process_row_top (ws : Worksheet) (col_headers : list string) (t : dict)
    (nodes : list string) (row0 : Cell) (data_cells : list Cell) (st' : build_state) :
  is_row_label ws (strip (serialize_value row0)) ->
  Forall (top_entry ws) t -> Forall (is_row_label ws) nodes ->
  process_row col_headers (t, nodes) (row0 :: data_cells) = OK st' ->
  Forall (top_entry ws) (fst st') /\ Forall (is_row_label ws) (snd st').
Proof.
  intros Hlabel Ht Hnodes H.
  assert (Forall (is_row_label ws)
            (firstn (leading_spaces (serialize_value row0)) nodes
             ++ [strip (serialize_value row0)])) as Hpath.
  { apply Forall_app. split; [now apply Forall_take | now constructor]. }
  split; [|now rewrite (process_row_nodes _ _ _ _ _ _ H)].
  unfold process_row in H. fold (leading_spaces (serialize_value row0)) in H.
  destruct (any_populated data_cells); [|now inversion H].
  apply bind_OK in H. destruct H as (t' & Ht' & E). inversion E; subst st'. simpl.
  unfold add_data in Ht'. apply bind_OK in Ht'. destruct Ht' as (v & Hv & Hd).
  destruct v as [| |d]; try discriminate. inversion Hd; subst d.
  destruct (firstn (leading_spaces (serialize_value row0)) nodes
            ++ [strip (serialize_value row0)]) as [|node rest] eqn:Epath.
  { simpl in Hv. discriminate. }
  apply add_data_at_top in Hv. destruct Hv as (child & Hchild & Et').
  inversion Et'. apply dict_set_Forall; [|assumption].
  intros k' ->. split; [|exact Hchild].
  exists node. split; [reflexivity|]. now inversion Hpath.
Qed.

Lemma build_tree_top (ws : Worksheet) (t : dict) :
  build_tree ws = OK t -> Forall (top_entry ws) t.
Proof.
  unfold build_tree. intros H. apply bind_OK in H. destruct H as (st & Hst & E).
  inversion E; subst t.
  apply (for_each_preserves
           (fun s => Forall (top_entry ws) (fst s) /\ Forall (is_row_label ws) (snd s))
           _ _) with (st' := st) (st := ([], [])) in Hst.
  - apply Hst.
  - intros [t nodes] row s' Hin [Ht Hnodes] Hrow. simpl in Ht, Hnodes.
    unfold iter_rows in Hin. apply in_map_iff in Hin.
    destruct Hin as (r & Er & Hr). apply in_range_list in Hr.
    destruct row as [|row0 data_cells]; [discriminate|].
    eapply process_row_top; [|exact Ht | exact Hnodes | exact Hrow].
    apply row_cells_head in Er. subst row0. exists r. split; [lia | reflexivity].
  - split; constructor.
Qed.

(** C10. The cleanup that ends the reconstruction removes nothing: every key
    of the top level of the tree is the stripped label of a data row, a text,
    and every value of the top level is a dictionary. *)
Theorem top_level_cleanup_is_identity (ws : Worksheet) (t : dict) :
  build_tree ws = OK t ->
  remove_none_key_value_pairs t = t /\
  process_hierarchical_table ws = OK t /\
  Forall (top_entry ws) t.
Proof.
  intros H. pose proof (build_tree_top ws t H) as Htop.
  assert (remove_none_key_value_pairs t = t) as Hid.
  { apply remove_none_str_keys. eapply Forall_impl; [exact Htop|].
    intros [k v] [(s & Ek & _) _]. simpl in *. congruence. }
  split; [exact Hid|]. split; [|exact Htop].
  unfold process_hierarchical_table. rewrite H. simpl. now rewrite Hid.
Qed.

(** The row "  Cash" below "Assets", with cells "100" and "200" under the
    headers "Jan" and "Feb". *)
Example cash_row_leaf :
  process_row ["Jan"; "Feb"] ([], ["Assets"]) cash_row
  = OK ([(Some "Assets",
          PyDict [(Some "Cash",
                   PyDict [(Some "Jan", PyStr "100"); (Some "Feb", PyStr "200")])])],
        ["Assets"; "Cash"]).
Proof. reflexivity. Qed.

(** C6. The third data row of [leaf_text_sample] has a populated data cell,
    and no leaf is written for it: its path goes from the leaf "A" through
    the key "Jan" to the text "100", and the assignment of the value map
    there raises [TypeError]. *)
Theorem populated_row_without_leaf :
  for_each (process_row ["Jan"]) (firstn 2 (iter_rows leaf_text_sample 2)) ([], [])
  = OK ([(Some "A", PyDict [(Some "Jan", PyStr "100")])], ["A"; "Jan"]) /\
  any_populated (tl (row_cells leaf_text_sample 4)) = true /\
  process_row ["Jan"] ([(Some "A", PyDict [(Some "Jan", PyStr "100")])], ["A"; "Jan"])
              (row_cells leaf_text_sample 4) = TypeError /\
  process_hierarchical_table leaf_text_sample = TypeError.
Proof. repeat split. Qed.

Lemma top_level_cleanup_witness :
  remove_none_key_value_pairs orphan_tree = orphan_tree /\
  process_hierarchical_table orphan_sample = OK orphan_tree /\
  Forall (top_entry orphan_sample) orphan_tree.
Proof. apply top_level_cleanup_is_identity. reflexivity. Defined.

(** ** Hierarchical tables: missing ancestors *)

(** X11. A label missing from the dictionary that the labels before it lead to:
    the attachment completes, and the label is bound afterwards to the chain
    of branches made for it and for the labels after it. *)
Lemma missing_ancestor_is_synthesized (leaf : dict) (d : dict) (node : string)
    (rest : list string) (pre : list string) :
  dict_get (Some node) d = None -> rest <> [] ->
  forall v, get_path v pre = Some (PyDict d) ->
    exists v', add_data_at v (pre ++ node :: rest) leaf = OK v' /\
               get_path v' (pre ++ [node]) = Some (branch_chain rest leaf).
Proof.
  intros Hm Hne. induction pre as [|p pre IH]; intros v Hv; simpl in Hv.
  - inversion Hv; subst v. simpl app. rewrite add_data_at_missing by assumption.
    eexists. split; [reflexivity|]. simpl. now rewrite dict_get_set_eq.
  - destruct v as [| |d0]; try discriminate.
    destruct (dict_get (Some p) d0) as [next_level|] eqn:Ep; [|discriminate].
    destruct (IH _ Hv) as (child & Hchild & Hpath).
    simpl app. rewrite add_data_at_step by (destruct pre; discriminate).
    rewrite Ep, Hchild. eexists. split; [reflexivity|].
    simpl. now rewrite dict_get_set_eq.
Qed.

(** A row two levels down with no row one level down before it. *)
Example orphan_sample_tree :
  process_hierarchical_table orphan_sample = OK orphan_tree.
Proof. reflexivity. Qed.

(** C7. The attachment of the row "   Y" of [header_label_sample] walks from
    "A", a leaf, through its key "Jan" into the text "100"; the label "X" is
    not found there, and making a branch for it raises [TypeError]. *)
Theorem header_label_sample_raises :
  for_each (process_row ["Jan"]) (firstn 3 (iter_rows header_label_sample 2)) ([], [])
  = OK ([(Some "A", PyDict [(Some "Jan", PyStr "100")])], ["A"; "Jan"; "X"]) /\
  get_path (PyDict [(Some "A", PyDict [(Some "Jan", PyStr "100")])]) ["A"; "Jan"]
  = Some (PyStr "100") /\
  get_path (PyDict [(Some "A", PyDict [(Some "Jan", PyStr "100")])]) ["A"; "Jan"; "X"]
  = None /\
  process_hierarchical_table header_label_sample = TypeError.
Proof. repeat split. Qed.

(** ** Hierarchical tables: levels *)

Lemma last_cons_any_default {A : Type} (l : list A) (x d d' : A) :
  List.last (x :: l) d = List.last (x :: l) d'.
Proof.
  revert x. induction l as [|y l IH]; intros x; [reflexivity|].
  change (List.last (y :: l) d = List.last (y :: l) d'). apply IH.
Qed.

Lemma for_each_process_row_paths (col_headers : list string) (rows : list (list Cell)) :
  forall t nodes st',
    for_each (process_row col_headers) rows (t, nodes) = OK st' ->
    snd st' = List.last (row_paths nodes rows) nodes.
Proof.
  induction rows as [|row rows IH]; intros t nodes st' H; simpl in H.
  - inversion H. reflexivity.
  - apply bind_OK in H. destruct H as ([t1 nodes1] & Hrow & Hrest).
    destruct row as [|row0 data_cells]; [discriminate|].
    pose proof (process_row_nodes _ _ _ _ _ _ Hrow) as E. simpl in E. subst nodes1.
    rewrite (IH _ _ _ Hrest). unfold leading_spaces.
    change (row_paths nodes ((row0 :: data_cells) :: rows))
      with ((firstn (len (serialize_value row0) - len (lstrip (serialize_value row0))) nodes
             ++ [strip (serialize_value row0)])
            :: row_paths (firstn (len (serialize_value row0)
                                  - len (lstrip (serialize_value row0))) nodes
                          ++ [strip (serialize_value row0)]) rows).
    destruct (row_paths _ rows) as [|p ps]; [reflexivity|].
    change (List.last (p :: ps) (firstn (len (serialize_value row0)
                                          - len (lstrip (serialize_value row0))) nodes
                                  ++ [strip (serialize_value row0)])
            = List.last (p :: ps) nodes).
    apply last_cons_any_default.
Qed.

(** C2. On row labels with 0, 3, 3 and 6 leading spaces the indentation unit
    is 3, and the levels that truncate the path are 0, 3, 3 and 6: the count
    of leading spaces is not divided by the unit.  The third row is attached
    below the second one, not beside it. *)
Theorem indented_sample_levels :
  calculate_num_leading_space_per_level
    (map serialize_value (tl (first_column indented_sample))) = 3%Z /\
  row_levels indented_sample = [0; 3; 3; 6] /\
  row_paths [] (iter_rows indented_sample 2)
  = [["A"]; ["A"; "B"]; ["A"; "B"; "C"]; ["A"; "B"; "C"; "D"]] /\
  process_hierarchical_table indented_sample
  = OK [(Some "A",
         PyDict [(Some "B",
                  PyDict [(Some "C",
                           PyDict [(Some "Jan", PyStr "1");
                                   (Some "D", PyDict [(Some "Jan", PyStr "2")])])])])].
Proof. repeat split. Qed.

(** ** Detector: invariants of the scan of one sheet *)

Section Scan.

Variable sheet : Worksheet.

(** *** The inner loops *)

Lemma find_end_col_bounds (r lo hi : nat) (cols : list nat) :
  (forall c, In c cols -> lo + 1 <= c <= hi + 1) ->
  forall init, lo <= init <= hi -> lo <= find_end_col sheet r cols init <= hi.
Proof.
  induction cols as [|c cols IH]; intros Hc init Hinit; simpl; [assumption|].
  destruct (has_top_right_border (cell sheet r (c - 1))).
  - specialize (Hc c (or_introl eq_refl)). lia.
  - apply IH; [|assumption]. intros x Hx. apply Hc. now right.
Qed.

Lemma find_end_row_bounds (c lo hi : nat) (rows : list nat) :
  (forall r, In r rows -> lo + 1 <= r <= hi + 1) ->
  forall init, lo <= init <= hi -> lo <= find_end_row sheet c rows init <= hi.
Proof.
  induction rows as [|r rows IH]; intros Hr init Hinit; simpl; [assumption|].
  destruct (has_bottom_right_border (cell sheet (r - 1) c)).
  - specialize (Hr r (or_introl eq_refl)). lia.
  - apply IH; [|assumption]. intros x Hx. apply Hr. now right.
Qed.

Lemma find_end_col_none (r : nat) (cols : list nat) (init : nat) :
  (forall c, In c cols -> has_top_right_border (cell sheet r (c - 1)) = false) ->
  find_end_col sheet r cols init = init.
Proof.
  induction cols as [|c cols IH]; intros H; simpl; [reflexivity|].
  rewrite (H c) by now left. apply IH. intros x Hx. apply H. now right.
Qed.

Lemma find_end_row_none (c : nat) (rows : list nat) (init : nat) :
  (forall r, In r rows -> has_bottom_right_border (cell sheet (r - 1) c) = false) ->
  find_end_row sheet c rows init = init.
Proof.
  induction rows as [|r rows IH]; intros H; simpl; [reflexivity|].
  rewrite (H r) by now left. apply IH. intros x Hx. apply H. now right.
Qed.

(** The ends of a region lie between its corner and the last index scanned. *)
Lemma region_ok_bounds (rng : table_range) :
  region_ok sheet rng ->
  table_start_row rng <= table_end_row rng < MAX_ROW_IDX /\
  table_start_col rng <= table_end_col rng < max_column sheet.
Proof.
  intros (Hr & Hc & _ & Ec & Er). unfold MAX_ROW_IDX in *. split.
  - cut (table_start_row rng <= table_end_row rng <= 100 - 1); [lia|].
    rewrite Er. apply find_end_row_bounds; [|lia].
    intros r Hin. apply in_range_list in Hin. lia.
  - cut (table_start_col rng <= table_end_col rng <= max_column sheet - 1); [lia|].
    rewrite Ec. apply find_end_col_bounds; [|lia].
    intros c Hin. apply in_range_list in Hin. lia.
Qed.

(** *** The visited mask *)

Lemma mask_le_refl (v : mask) : mask_le v v.
Proof. intros r c H. exact H. Qed.

Lemma mask_le_trans (a b c : mask) : mask_le a b -> mask_le b c -> mask_le a c.
Proof. intros H1 H2 r k H. apply H2, H1, H. Qed.

Lemma mask_line (v : mask) (r : nat) :
  mask_shape sheet v -> r < MAX_ROW_IDX ->
  exists line, v !! r = Some line /\ length line = max_column sheet.
Proof.
  intros [Hlen Hlines] Hr.
  destruct (lookup_lt_is_Some_2 v r) as (line & Hline); [lia|].
  exists line. split; [assumption|].
  exact (proj1 (Forall_lookup _ _) Hlines r line Hline).
Qed.

Lemma get_visited_total (v : mask) (r c : nat) :
  mask_shape sheet v -> r < MAX_ROW_IDX -> c < max_column sheet ->
  exists b, get_visited v r c = OK b.
Proof.
  intros Hs Hr Hc. destruct (mask_line v r Hs Hr) as (line & Hline & Hlen).
  unfold get_visited. rewrite Hline.
  destruct (lookup_lt_is_Some_2 line c) as (b & Hb); [lia|].
  rewrite Hb. eauto.
Qed.

Lemma set_visited_spec (v : mask) (r c : nat) :
  mask_shape sheet v -> r < MAX_ROW_IDX -> c < max_column sheet ->
  exists v', set_visited v r c = OK v' /\ mask_shape sheet v' /\
             get_visited v' r c = OK true /\ mask_le v v'.
Proof.
  intros Hs Hr Hc. destruct (mask_line v r Hs Hr) as (line & Hline & Hlen).
  destruct Hs as [Hrows Hlines].
  unfold set_visited. rewrite Hline.
  assert ((c <? length line) = true) as -> by (apply Nat.ltb_lt; lia).
  eexists. split; [reflexivity|]. split; [|split].
  - split.
    + now rewrite length_insert.
    + apply Forall_insert; [assumption|]. now rewrite length_insert.
  - unfold get_visited.
    rewrite list_lookup_insert_eq by lia.
    rewrite list_lookup_insert_eq by lia. reflexivity.
  - intros r' c' H. unfold get_visited in *.
    destruct (Nat.eq_dec r' r) as [->|Hne].
    + rewrite list_lookup_insert_eq by lia. rewrite Hline in H.
      destruct (Nat.eq_dec c' c) as [->|Hnc].
      * rewrite list_lookup_insert_eq by lia. reflexivity.
      * rewrite list_lookup_insert_ne by congruence. exact H.
    + rewrite list_lookup_insert_ne by congruence. exact H.
Qed.

Lemma mark_row_spec (start_row start_col r : nat) (cols : list nat) :
  r < MAX_ROW_IDX -> (forall c, In c cols -> c < max_column sheet) ->
  forall v w, mask_shape sheet v ->
    exists v',
      for_each (mark_cell sheet start_row start_col r) cols (v, w)
      = OK (v', fold_left (copy_cell sheet start_row start_col r) cols w) /\
      mask_shape sheet v' /\
      (forall c, In c cols -> get_visited v' r c = OK true) /\
      mask_le v v'.
Proof.
  intros Hr. induction cols as [|c cols IH]; intros Hcols v w Hs; simpl.
  - exists v. split; [reflexivity|]. split; [assumption|].
    split; [intros c [] | apply mask_le_refl].
  - destruct (set_visited_spec v r c Hs Hr) as (v1 & E1 & Hs1 & Hget & Hle1).
    { apply Hcols. now left. }
    rewrite E1. simpl.
    destruct (IH (fun x Hx => Hcols x (or_intror Hx)) v1
                 (copy_cell sheet start_row start_col r w c) Hs1)
      as (v' & E & Hs' & Hmarked & Hle).
    exists v'. split; [exact E|]. split; [exact Hs'|]. split.
    + intros x [<-|Hx]; [apply Hle, Hget | now apply Hmarked].
    + eapply mask_le_trans; eassumption.
Qed.

Lemma mark_cells_visited_spec (v : mask)
    (start_row start_col end_row end_col : nat) :
  mask_shape sheet v -> end_row < MAX_ROW_IDX -> end_col < max_column sheet ->
  exists v',
    mark_cells_visited sheet v start_row start_col end_row end_col
    = OK (v', copy_region sheet start_row start_col end_row end_col) /\
    mask_shape sheet v' /\
    (forall r c, start_row <= r <= end_row -> start_col <= c <= end_col ->
                 get_visited v' r c = OK true) /\
    mask_le v v'.
Proof.
  intros Hs Her Hec. unfold mark_cells_visited, copy_region.
  assert (forall rows, (forall r, In r rows -> r < MAX_ROW_IDX) ->
          forall v w, mask_shape sheet v ->
          exists v',
            for_each (mark_row sheet start_row start_col end_col) rows (v, w)
            = OK (v', fold_left (copy_row sheet start_row start_col end_col) rows w) /\
            mask_shape sheet v' /\
            (forall r c, In r rows -> In c (range start_col (end_col + 1)) ->
                         get_visited v' r c = OK true) /\
            mask_le v v') as Hrows.
  { induction rows as [|r rows IH]; intros Hrows v0 w Hs0; cbn [for_each fold_left].
    - exists v0. split; [reflexivity|]. split; [assumption|].
      split; [intros r c [] | apply mask_le_refl].
    - destruct (mark_row_spec start_row start_col r
                  (range start_col (end_col + 1))) with (v := v0) (w := w)
        as (v1 & E1 & Hs1 & Hm1 & Hle1); [| |assumption|].
      { apply Hrows. now left. }
      { intros c Hc. apply in_range_list in Hc. lia. }
      change (for_each (mark_cell sheet start_row start_col r)
                (range start_col (end_col + 1)) (v0, w))
        with (mark_row sheet start_row start_col end_col (v0, w) r) in E1.
      rewrite E1. simpl.
      destruct (IH (fun x Hx => Hrows x (or_intror Hx)) v1
                   (copy_row sheet start_row start_col end_col w r) Hs1)
        as (v' & E & Hs' & Hm & Hle).
      exists v'. split; [exact E|]. split; [exact Hs'|]. split.
      + intros x c [<-|Hx] Hc; [apply Hle, Hm1, Hc | now apply Hm].
      + eapply mask_le_trans; eassumption. }
  destruct (Hrows (range start_row (end_row + 1))) with (v := v) (w := new_worksheet)
    as (v' & E & Hs' & Hm & Hle); [|assumption|].
  { intros r Hin. apply in_range_list in Hin. lia. }
  exists v'. split; [exact E|]. split; [exact Hs'|]. split; [|exact Hle].
  intros r c Hr Hc. apply Hm; apply in_range_list; lia.
Qed.

(** *** The scan *)

Lemma scan_cell_unfold (row_idx col_idx : nat) (st : scan_state) :
  scan_cell sheet row_idx st col_idx =
  (seen ← get_visited (visited st) row_idx col_idx;
   if seen || (row_idx <? 45) then OK st
   else if has_upper_left_border (cell sheet row_idx col_idx) then
     let rng := region_at sheet row_idx col_idx in
     '(visited', wb) ← mark_cells_visited sheet (visited st)
                          (table_start_row rng) (table_start_col rng)
                          (table_end_row rng) (table_end_col rng);
     if (if is_empty_cell (cell sheet row_idx col_idx) then true else is_complex st)
     then OK {| table_ranges := table_ranges st ++ [rng];
                simple_table_workbooks := simple_table_workbooks st;
                complex_table_workbooks := complex_table_workbooks st ++ [wb];
                visited := visited';
                is_complex := false |}
     else OK {| table_ranges := table_ranges st ++ [rng];
                simple_table_workbooks := simple_table_workbooks st ++ [wb];
                complex_table_workbooks := complex_table_workbooks st;
                visited := visited';
                is_complex :=
                  if is_empty_cell (cell sheet row_idx col_idx)
                  then true else is_complex st |}
   else OK st).
Proof. reflexivity. Qed.

Lemma region_at_ok (row_idx col_idx : nat) :
  45 <= row_idx < MAX_ROW_IDX -> 1 <= col_idx < max_column sheet ->
  has_upper_left_border (cell sheet row_idx col_idx) = true ->
  region_ok sheet (region_at sheet row_idx col_idx).
Proof.
  intros Hr Hc Hul. unfold region_ok, region_at, corner. simpl.
  repeat split; try lia; try assumption.
Qed.

Lemma in_range_iff (rng : table_range) (r c : nat) :
  in_range rng r c = true <->
  (table_start_row rng <= r <= table_end_row rng) /\
  (table_start_col rng <= c <= table_end_col rng).
Proof.
  unfold in_range. rewrite !andb_true_iff, !Nat.leb_le. lia.
Qed.

Lemma lookup_snoc_inv {A : Type} (l : list A) (x y : A) (j : nat) :
  (l ++ [x]) !! j = Some y -> l !! j = Some y \/ (j = length l /\ y = x).
Proof.
  intros H. destruct (Nat.lt_ge_cases j (length l)) as [Hlt|Hge].
  - left. now rewrite lookup_app_l in H.
  - right. rewrite lookup_app_r in H by assumption.
    destruct (j - length l) as [|n] eqn:E; simpl in H; [|discriminate].
    split; [lia | congruence].
Qed.

(** The body of the column loop keeps the invariant of the scan and never
    raises inside the scanned window. *)
Lemma scan_cell_inv (row_idx col_idx : nat) (st : scan_state) :
  1 <= row_idx < MAX_ROW_IDX -> 1 <= col_idx < max_column sheet ->
  scan_inv sheet st ->
  exists st', scan_cell sheet row_idx st col_idx = OK st' /\ scan_inv sheet st'.
Proof.
  intros Hr Hc Hinv.
  destruct Hinv as [Hshape Hflag Hregs Hmarked Hfresh Hsimple Hcomplex].
  rewrite scan_cell_unfold.
  destruct (get_visited_total (visited st) row_idx col_idx) as (seen & Hseen);
    [assumption | lia | lia |].
  rewrite Hseen. change (OK seen ≫= ?f) with (f seen). cbv beta.
  destruct (seen || (row_idx <? 45)) eqn:Hskip.
  { exists st. split; [reflexivity | now constructor]. }
  apply orb_false_iff in Hskip. destruct Hskip as [-> Hrow]. apply Nat.ltb_ge in Hrow.
  destruct (has_upper_left_border (cell sheet row_idx col_idx)) eqn:Hul.
  2: { exists st. split; [reflexivity | now constructor]. }
  cbv zeta.
  pose proof (region_at_ok row_idx col_idx ltac:(lia) Hc Hul) as Hok.
  pose proof (region_ok_bounds _ Hok) as [Hrows Hcols].
  set (rng := region_at sheet row_idx col_idx) in *.
  destruct (mark_cells_visited_spec (visited st)
              (table_start_row rng) (table_start_col rng)
              (table_end_row rng) (table_end_col rng))
    as (v' & Emark & Hshape' & Hnew & Hle); [assumption | lia | lia |].
  rewrite Emark. change (OK ?p ≫= ?f) with (f p). cbv beta iota.
  assert (table_start_row rng = row_idx /\ table_start_col rng = col_idx) as [Esr Esc]
    by (split; reflexivity).
  assert (corner_is_empty sheet rng = is_empty_cell (cell sheet row_idx col_idx)) as Ecorner
    by reflexivity.
  assert (forall x r c, In x (table_ranges st ++ [rng]) -> in_range x r c = true ->
                        get_visited v' r c = OK true) as Hmarked'.
  { intros x r c Hin Hxr. apply in_app_or in Hin. destruct Hin as [Hold|[<-|[]]].
    - apply Hle. eapply Hmarked; eassumption.
    - apply in_range_iff in Hxr. now apply Hnew. }
  assert (corners_fresh (table_ranges st ++ [rng])) as Hfresh'.
  { intros i j a b Hij Ha Hb. apply lookup_snoc_inv in Hb.
    destruct Hb as [Hb|[-> ->]].
    - assert (i < length (table_ranges st)) by (apply lookup_lt_Some in Hb; lia).
      rewrite lookup_app_l in Ha by assumption. exact (Hfresh i j a b Hij Ha Hb).
    - rewrite lookup_app_l in Ha by assumption.
      rewrite Esr, Esc. destruct (in_range a row_idx col_idx) eqn:Hin; [|reflexivity].
      assert (get_visited (visited st) row_idx col_idx = OK true) as Hv.
      { eapply Hmarked; [|exact Hin].
        apply list_elem_of_In. eapply list_elem_of_lookup_2. exact Ha. }
      congruence. }
  assert (Forall (region_ok sheet) (table_ranges st ++ [rng])) as Hregs'.
  { apply Forall_app. split; [assumption | now constructor]. }
  destruct (is_empty_cell (cell sheet row_idx col_idx)) eqn:Hempty.
  - eexists. split; [reflexivity|]. constructor;
      cbn [table_ranges simple_table_workbooks complex_table_workbooks visited is_complex];
      try assumption.
    + reflexivity.
    + rewrite List.filter_app, map_app, <- Hsimple. simpl.
      rewrite Ecorner. simpl. now rewrite app_nil_r.
    + rewrite List.filter_app, map_app, <- Hcomplex. simpl.
      rewrite Ecorner. reflexivity.
  - rewrite Hflag. eexists. split; [reflexivity|]. constructor;
      cbn [table_ranges simple_table_workbooks complex_table_workbooks visited is_complex];
      try assumption.
    + reflexivity.
    + rewrite List.filter_app, map_app, <- Hsimple. simpl.
      rewrite Ecorner. reflexivity.
    + rewrite List.filter_app, map_app, <- Hcomplex. simpl.
      rewrite Ecorner. simpl. now rewrite app_nil_r.
Qed.

Lemma scan_row_inv (row_idx : nat) (st : scan_state) :
  1 <= row_idx < MAX_ROW_IDX -> scan_inv sheet st ->
  exists st', scan_row sheet st row_idx = OK st' /\ scan_inv sheet st'.
Proof.
  intros Hr Hinv. unfold scan_row.
  apply (for_each_invariant (scan_inv sheet)).
  - intros s col_idx Hin Hs. apply in_range_list in Hin.
    apply scan_cell_inv; [assumption | lia | assumption].
  - destruct Hinv. now constructor.
Qed.

Lemma initial_state_inv : scan_inv sheet (initial_state sheet).
Proof.
  unfold initial_state. constructor;
    cbn [table_ranges simple_table_workbooks complex_table_workbooks visited is_complex];
    try reflexivity.
  - split.
    + apply repeat_length.
    + apply List.Forall_forall. intros line Hin. apply repeat_spec in Hin. subst line.
      apply repeat_length.
  - constructor.
  - intros rng r c [].
  - intros i j a b _ Ha. discriminate.
Qed.

(** The scan never raises, and it ends in a state that satisfies the
    invariant. *)
Lemma scan_total :
  exists st, scan sheet = OK st /\ scan_inv sheet st.
Proof.
  unfold scan. apply (for_each_invariant (scan_inv sheet)).
  - intros s row_idx Hin Hs. apply in_range_list in Hin.
    now apply scan_row_inv.
  - apply initial_state_inv.
Qed.

Lemma get_table_ranges_total :
  exists st,
    scan_inv sheet st /\
    get_table_ranges sheet
    = OK (table_ranges st, simple_table_workbooks st, complex_table_workbooks st).
Proof.
  destruct (scan_total) as (st & E & Hinv).
  exists st. split; [assumption|]. unfold get_table_ranges. now rewrite E.
Qed.

End Scan.

(** ** Detector: what the scan emits *)

(** C9. The scan never raises, and the corner of every region it emits lies
    in rows 45..99 and in a column before the last one of the sheet. *)
Theorem regions_start_in_scan_window (sheet : Worksheet) :
  exists rs simple complex,
    get_table_ranges sheet = OK (rs, simple, complex) /\
    Forall (fun rng => 45 <= table_start_row rng <= 99 /\
                       1 <= table_start_col rng < max_column sheet) rs.
Proof.
  destruct (get_table_ranges_total sheet) as (st & Hinv & E).
  eexists _, _, _. split; [exact E|].
  eapply Forall_impl; [exact (inv_regions _ _ Hinv)|].
  intros rng (Hr & Hc & _). unfold MAX_ROW_IDX in Hr. lia.
Qed.

Lemma filter_split_length {A : Type} (f : A -> bool) (l : list A) :
  length (List.filter (fun x => negb (f x)) l) + length (List.filter f l) = length l.
Proof.
  induction l as [|a l IH]; simpl; [reflexivity|].
  destruct (f a); simpl; lia.
Qed.

(** C5. A region is classified by its corner cell alone: the complex
    sub-grids are those of the regions whose corner cell is empty, the simple
    ones those of the regions whose corner cell is populated, both in scan
    order, and every region is in one list and one only. *)
Theorem classification_by_corner_cell (sheet : Worksheet) :
  exists rs simple complex,
    get_table_ranges sheet = OK (rs, simple, complex) /\
    complex = map (sub_grid sheet)
                  (List.filter (fun rng => is_empty_cell (corner sheet rng)) rs) /\
    simple = map (sub_grid sheet)
                 (List.filter (fun rng => negb (is_empty_cell (corner sheet rng))) rs) /\
    length simple + length complex = length rs.
Proof.
  destruct (get_table_ranges_total sheet) as (st & Hinv & E).
  eexists _, _, _. split; [exact E|].
  pose proof (inv_simple _ _ Hinv) as Hs. pose proof (inv_complex _ _ Hinv) as Hc.
  split; [exact Hc|]. split; [exact Hs|].
  rewrite Hs, Hc, !length_map. apply filter_split_length.
Qed.

(** C4, as the scan has it.  Every region has its start before its end, in
    rows and in columns, and its corner lies in none of the regions emitted
    before it: the mask keeps a region from starting inside an earlier one. *)
Theorem regions_ordered_corners_fresh (sheet : Worksheet) :
  exists rs simple complex,
    get_table_ranges sheet = OK (rs, simple, complex) /\
    Forall (fun rng => table_start_row rng <= table_end_row rng /\
                       table_start_col rng <= table_end_col rng) rs /\
    corners_fresh rs.
Proof.
  destruct (get_table_ranges_total sheet) as (st & Hinv & E).
  eexists _, _, _. split; [exact E|]. split; [|exact (inv_fresh _ _ Hinv)].
  eapply Forall_impl; [exact (inv_regions _ _ Hinv)|].
  intros rng Hok. pose proof (region_ok_bounds sheet rng Hok). lia.
Qed.

Lemma crossing_sheet_ranges :
  exists simple complex,
    get_table_ranges crossing_sheet = OK ([crossing_first; crossing_second], simple, complex).
Proof. eexists _, _. vm_compute. reflexivity. Qed.

(** The mask does not keep a region from running across an earlier one: the
    two regions of [crossing_sheet] share the cell (46, 3). *)
Lemma crossing_sheet_regions_overlap : ~ regions_well_separated crossing_sheet.
Proof.
  intros H. destruct crossing_sheet_ranges as (simple & complex & E).
  destruct (H _ _ _ E) as [_ Hdis].
  specialize (Hdis 0 1 crossing_first crossing_second ltac:(lia) eq_refl eq_refl).
  discriminate Hdis.
Qed.

(** C1, as the scan has it.  The scan never raises.  A region with no
    top-right corner in the row of its corner ends in the column where it
    starts, and a region with no bottom-right corner below in its last column
    ends in the row where it starts. *)
Theorem unclosed_region_keeps_corner (sheet : Worksheet) :
  exists rs simple complex,
    get_table_ranges sheet = OK (rs, simple, complex) /\
    forall rng, In rng rs ->
      (no_top_right sheet rng -> table_end_col rng = table_start_col rng) /\
      (no_bottom_right sheet rng -> table_end_row rng = table_start_row rng).
Proof.
  destruct (get_table_ranges_total sheet) as (st & Hinv & E).
  eexists _, _, _. split; [exact E|]. intros rng Hin.
  pose proof (proj1 (List.Forall_forall _ _) (inv_regions _ _ Hinv) rng Hin) as Hok.
  destruct Hok as (Hr & Hc & _ & Ec & Er). split.
  - intros Hnone. rewrite Ec. apply find_end_col_none.
    intros c Hcin. apply in_range_list in Hcin. apply Hnone; lia.
  - intros Hnone. rewrite Er. apply find_end_row_none.
    intros r Hrin. apply in_range_list in Hrin.
    apply Hnone; unfold MAX_ROW_IDX in *; lia.
Qed.

Lemma unclosed_sheet_ranges :
  exists simple complex,
    get_table_ranges unclosed_sheet = OK ([unclosed_region], simple, complex).
Proof. eexists _, _. vm_compute. reflexivity. Qed.

Lemma unclosed_sheet_no_top_right : no_top_right unclosed_sheet unclosed_region.
Proof.
  intros c Hlo Hhi. simpl in Hlo, Hhi.
  destruct c as [|[|[|[|c]]]]; try lia; reflexivity.
Qed.

Lemma unclosed_sheet_no_bottom_right : no_bottom_right unclosed_sheet unclosed_region.
Proof.
  intros r Hlo Hhi. simpl in Hlo.
  unfold has_bottom_right_border, cell, unclosed_sheet, unclosed_region. simpl.
  unfold at_cell. destruct (r =? 45); reflexivity.
Qed.

(** The unclosed region of [unclosed_sheet] is the corner cell alone: it does
    not reach the last column or the last row of the scan. *)
Lemma unclosed_sheet_not_clamped : ~ clamps_to_scan_limit unclosed_sheet.
Proof.
  intros H. destruct unclosed_sheet_ranges as (simple & complex & E).
  destruct (H _ _ _ unclosed_region E (or_introl eq_refl)) as [Hcol _].
  destruct (Hcol unclosed_sheet_no_top_right) as [Hc|Hc]; discriminate Hc.
Qed.

Lemma unclosed_region_keeps_corner_witness :
  exists simple complex,
    get_table_ranges unclosed_sheet = OK ([unclosed_region], simple, complex) /\
    table_end_col unclosed_region = table_start_col unclosed_region /\
    table_end_row unclosed_region = table_start_row unclosed_region.
Proof.
  destruct (unclosed_region_keeps_corner unclosed_sheet) as (rs & simple & complex & E & H).
  destruct unclosed_sheet_ranges as (simple' & complex' & E').
  assert (rs = [unclosed_region]) as -> by congruence.
  exists simple', complex'. split; [exact E'|].
  destruct (H unclosed_region (or_introl eq_refl)) as [Hcol Hrow].
  split; [exact (Hcol unclosed_sheet_no_top_right)
         | exact (Hrow unclosed_sheet_no_bottom_right)].
Defined.

(** A closed simple table and a closed complex one, from the sheet to the
    records and the tree. *)
Example two_tables_detected :
  exists simple complex,
    get_table_ranges two_tables_sheet
    = OK ([ {| table_start_row := 45; table_start_col := 1;
               table_end_row := 46; table_end_col := 2 |};
            {| table_start_row := 50; table_start_col := 2;
               table_end_row := 51; table_end_col := 3 |} ],
          [simple], [complex]) /\
    process_simple_table simple
    = [[(Some "h1", PyStr "v1"); (Some "h2", PyStr "v2")]] /\
    process_hierarchical_table complex
    = OK [(Some "A", PyDict [(Some "Jan", PyStr "1")])].
Proof.
  eexists _, _. split; [vm_compute; reflexivity|].
  split; vm_compute; reflexivity.
Qed.

(** * Further properties of the source *)

(** ** The cleanup of a dictionary *)

Lemma remove_none_keeps (d : dict) :
  Forall (fun kv => fst kv <> None) d -> remove_none_key_value_pairs d = d.
Proof. apply remove_none_str_keys. Qed.

Lemma not_in_keys_Forall (d : dict) :
  ~ In None (dict_keys d) -> Forall (fun kv => fst kv <> None) d.
Proof.
  intros H. apply (dict_keys_Forall (fun k => k <> None)).
  intros k Hk E. subst k. contradiction.
Qed.

(** X1. The cleanup is idempotent; it removes the pair of key [None] and
    value [None] and nothing else, so the value of every other key is what
    it was, and a dictionary loses one entry at most. *)
Theorem remove_none_key_value_pairs_spec (d : dict) :
  remove_none_key_value_pairs (remove_none_key_value_pairs d)
  = remove_none_key_value_pairs d /\
  (forall k v, In (k, v) (remove_none_key_value_pairs d) <->
               In (k, v) d /\ ~ (k = None /\ v = PyNone)) /\
  (forall k, k <> None ->
             dict_get k (remove_none_key_value_pairs d) = dict_get k d) /\
  (List.NoDup (dict_keys d) ->
   length d <= S (length (remove_none_key_value_pairs d))).
Proof.
  split; [|split; [|split]].
  - unfold remove_none_key_value_pairs.
    induction d as [|[k v] d IH]; simpl; [reflexivity|].
    destruct (negb (is_none_key k && is_none v)) eqn:E; simpl.
    + rewrite E. now f_equal.
    + exact IH.
  - intros k v. unfold remove_none_key_value_pairs. rewrite filter_In. simpl.
    destruct k as [s|], v as [| |items]; simpl; intuition congruence.
  - intros k Hk. unfold remove_none_key_value_pairs.
    induction d as [|[k0 v0] d IH]; simpl; [reflexivity|].
    destruct (negb (is_none_key k0 && is_none v0)) eqn:E; simpl.
    + now rewrite IH.
    + destruct k0 as [s|]; simpl in E; [discriminate|].
      rewrite key_eqb_neq by assumption. exact IH.
  - intros Hnd. induction d as [|[k0 v0] d IH]; simpl; [lia|].
    unfold dict_keys in Hnd. simpl in Hnd. inversion Hnd as [|? ? Hnot Hrest]; subst.
    destruct (negb (is_none_key k0 && is_none v0)) eqn:E; simpl.
    + specialize (IH Hrest). unfold remove_none_key_value_pairs in *. lia.
    + destruct k0 as [s|]; simpl in E; [discriminate|].
      pose proof (remove_none_keeps d (not_in_keys_Forall d Hnot)) as Hid.
      unfold remove_none_key_value_pairs in *. rewrite Hid. lia.
Qed.

(** ** The indentation step *)

Lemma first_indent_step_zero (a : string) (l : list string) :
  first_indent_step (combine (a :: l) l) = 0%Z <->
  Forall (fun x => leading_spaces x = leading_spaces a) l.
Proof.
  revert a. induction l as [|b l IH]; intros a.
  - simpl. split; [constructor | reflexivity].
  - change (combine (a :: b :: l) (b :: l)) with ((a, b) :: combine (b :: l) l).
    cbn [first_indent_step].
    destruct (Nat.eqb_spec (leading_spaces b) (leading_spaces a)) as [E|E]; cbn [negb].
    + rewrite IH. split.
      * intros H. constructor; [exact E|].
        eapply Forall_impl; [exact H|]. simpl. intros x Hx. congruence.
      * intros H. inversion H; subst.
        eapply Forall_impl; [eassumption|]. simpl. intros x Hx. congruence.
    + split; [lia|]. intros H. inversion H; subst. contradiction.
Qed.

(** X2. The step is 0 exactly when all the labels have the same number of
    leading blanks; that covers the empty list and the list of one label. *)
Theorem calculate_zero_iff_uniform (row_headers : list string) :
  calculate_num_leading_space_per_level row_headers = 0%Z <->
  uniform_indent row_headers.
Proof.
  unfold calculate_num_leading_space_per_level, uniform_indent.
  destruct row_headers as [|a l].
  - simpl. split; [intros _ a b [] | reflexivity].
  - cbn [tl]. rewrite first_indent_step_zero, List.Forall_forall. split.
    + intros H x y [<-|Hx] [<-|Hy]; try reflexivity.
      * symmetry. now apply H.
      * now apply H.
      * rewrite (H x Hx). symmetry. now apply H.
    + intros H x Hx. apply H; [now right | now left].
Qed.

Lemma first_indent_step_first_change (l : list string) :
  forall (a : string) (i : nat) (x y : string),
    (a :: l) !! i = Some x -> (a :: l) !! S i = Some y ->
    leading_spaces x <> leading_spaces y ->
    (forall j z, j < i -> (a :: l) !! j = Some z ->
                 leading_spaces z = leading_spaces x) ->
    first_indent_step (combine (a :: l) l)
    = (Z.of_nat (leading_spaces y) - Z.of_nat (leading_spaces x))%Z.
Proof.
  induction l as [|b l IH]; intros a i x y Hx Hy Hne Hbefore.
  - destruct i; simpl in Hy; discriminate.
  - change (combine (a :: b :: l) (b :: l)) with ((a, b) :: combine (b :: l) l).
    cbn [first_indent_step]. destruct i as [|i].
    + simpl in Hx, Hy. inversion Hx; inversion Hy; subst.
      destruct (Nat.eqb_spec (leading_spaces y) (leading_spaces x)); [congruence|].
      reflexivity.
    + assert (leading_spaces a = leading_spaces x) as Ea
          by (apply (Hbefore 0); [lia | reflexivity]).
      assert (leading_spaces b = leading_spaces x) as Eb.
      { destruct i as [|i].
        - simpl in Hx. congruence.
        - apply (Hbefore 1); [lia | reflexivity]. }
      destruct (Nat.eqb_spec (leading_spaces b) (leading_spaces a)); [|congruence].
      cbn [negb]. apply (IH b i x y); try assumption.
      intros j z Hj Hz. apply (Hbefore (S j)); [lia | exact Hz].
Qed.

(** X3. When the labels change their indentation, the step is the signed
    difference at the first change: the blanks of the label after it less
    the blanks of the label before it, negative when the first change is a
    decrease. *)
Theorem calculate_is_first_change (row_headers : list string) (i : nat) (x y : string) :
  row_headers !! i = Some x -> row_headers !! S i = Some y ->
  leading_spaces x <> leading_spaces y ->
  (forall j z, j < i -> row_headers !! j = Some z ->
               leading_spaces z = leading_spaces x) ->
  calculate_num_leading_space_per_level row_headers
  = (Z.of_nat (leading_spaces y) - Z.of_nat (leading_spaces x))%Z.
Proof.
  destruct row_headers as [|a l]; [discriminate|].
  unfold calculate_num_leading_space_per_level. cbn [tl].
  apply first_indent_step_first_change.
Qed.

Lemma calculate_is_first_change_witness :
  calculate_num_leading_space_per_level ["A"; "  B"; "C"] = 2%Z /\
  calculate_num_leading_space_per_level ["  B"; "C"; "   D"] = (-2)%Z.
Proof.
  split.
  - apply (calculate_is_first_change ["A"; "  B"; "C"] 0 "A" "  B");
      [reflexivity | reflexivity | discriminate | intros j z Hj; lia].
  - apply (calculate_is_first_change ["  B"; "C"; "   D"] 0 "  B" "C");
      [reflexivity | reflexivity | discriminate | intros j z Hj; lia].
Defined.

(** ** Fill colours *)

(** X4. A cell has the fill colour of itself.  Off the two hard-wired pairs
    of positions the answer is the equality of the two colours, and it does
    not depend on the order of the two cells.  On the first hard-wired pair
    two cells of one colour are told apart downwards and not upwards. *)
Theorem has_same_fill_color_spec :
  (forall a, has_same_fill_color a a = true) /\
  (forall a b, ~ wired_pair a b ->
     (has_same_fill_color a b = true <-> fill_bgColor a = fill_bgColor b)) /\
  (forall a b, ~ wired_pair a b -> ~ wired_pair b a ->
     has_same_fill_color a b = has_same_fill_color b a) /\
  (forall a b, row a = 45 -> row b = 46 -> column a = 12 -> column b = 12 ->
     fill_bgColor a = fill_bgColor b ->
     has_same_fill_color a b = false /\ has_same_fill_color b a = true).
Proof.
  assert (forall a b, ~ wired_pair a b ->
            has_same_fill_color a b = String.eqb (fill_bgColor a) (fill_bgColor b))
    as Hoff.
  { intros a b Hw. unfold has_same_fill_color, wired_pair in *.
    destruct (Nat.eqb_spec (row a) 45), (Nat.eqb_spec (row b) 46),
      (Nat.eqb_spec (column a) 12), (Nat.eqb_spec (column b) 12),
      (Nat.eqb_spec (row a) 55), (Nat.eqb_spec (row b) 56);
      simpl; try reflexivity; exfalso; apply Hw; tauto. }
  split; [|split; [|split]].
  - intros a. rewrite Hoff; [apply String.eqb_refl|].
    unfold wired_pair. lia.
  - intros a b Hw. rewrite Hoff by assumption. apply String.eqb_eq.
  - intros a b Hab Hba. rewrite !Hoff by assumption. apply String.eqb_sym.
  - intros a b Ha Hb Hca Hcb Hfill. split.
    + unfold has_same_fill_color. rewrite Ha, Hb, Hca, Hcb. reflexivity.
    + rewrite Hoff; [rewrite Hfill; apply String.eqb_refl|].
      unfold wired_pair. lia.
Qed.

(** ** Flat tables: the values of a record *)

Lemma map_lookup {A B : Type} (f : A -> B) (l : list A) (i : nat) (x : A) :
  l !! i = Some x -> map f l !! i = Some (f x).
Proof.
  revert i. induction l as [|a l IH]; intros [|i] H; simpl in *; try discriminate.
  - congruence.
  - now apply IH.
Qed.

Lemma map_lookup_inv {A B : Type} (f : A -> B) (l : list A) (i : nat) (y : B) :
  map f l !! i = Some y -> exists x, l !! i = Some x /\ y = f x.
Proof.
  revert i. induction l as [|a l IH]; intros [|i] H; simpl in *; try discriminate.
  - inversion H. eauto.
  - now apply IH.
Qed.

Lemma range_lookup (a b i : nat) : a + i < b -> range a b !! i = Some (a + i).
Proof. intros H. unfold range. apply lookup_seq_lt. lia. Qed.

Lemma range_lookup_inv (a b i x : nat) :
  range a b !! i = Some x -> x = a + i /\ a + i < b.
Proof. unfold range. intros H. apply lookup_seq in H. lia. Qed.

Lemma row_cells_lookup (ws : Worksheet) (r i : nat) :
  i < max_column ws -> row_cells ws r !! i = Some (cell ws r (S i)).
Proof.
  intros H. unfold row_cells.
  rewrite (map_lookup _ _ i (1 + i)); [reflexivity|]. apply range_lookup. lia.
Qed.

Lemma row_cells_lookup_inv (ws : Worksheet) (r i : nat) (c : Cell) :
  row_cells ws r !! i = Some c -> c = cell ws r (S i) /\ i < max_column ws.
Proof.
  unfold row_cells. intros H. apply map_lookup_inv in H.
  destruct H as (x & Hx & ->). apply range_lookup_inv in Hx.
  destruct Hx as [-> Hlt]. split; [reflexivity | lia].
Qed.

Lemma process_simple_table_lookup (ws : Worksheet) (r : nat) :
  2 <= r <= max_row ws ->
  process_simple_table ws !! (r - 2) = Some (zipped_record ws r).
Proof.
  intros Hr. rewrite process_simple_table_keeps_headers.
  rewrite (map_lookup _ _ (r - 2) r); [reflexivity|].
  replace (Some r) with (Some (2 + (r - 2))) by (f_equal; lia).
  apply range_lookup. lia.
Qed.

Lemma zipped_record_value (ws : Worksheet) (r j : nat) :
  1 <= j <= max_column ws ->
  (forall j', j < j' <= max_column ws ->
              serialize_value (cell ws 1 j') <> serialize_value (cell ws 1 j)) ->
  dict_get (Some (serialize_value (cell ws 1 j))) (zipped_record ws r)
  = Some (PyStr (serialize_value (cell ws r j))).
Proof.
  intros Hj Hlast. unfold zipped_record, py_dict.
  apply (py_dict_last_wins _ [] (j - 1)).
  - apply combine_lookup.
    + unfold str_keys. apply map_lookup, map_lookup.
      rewrite row_cells_lookup by lia. do 2 f_equal. lia.
    + apply map_lookup, map_lookup.
      rewrite row_cells_lookup by lia. do 2 f_equal. lia.
  - intros i [k v] Hi Hkv E. simpl in E. subst k.
    apply combine_lookup_inv in Hkv. simpl in Hkv. destruct Hkv as [Hk _].
    unfold str_keys in Hk. apply map_lookup_inv in Hk.
    destruct Hk as (h & Hh & Eh). apply map_lookup_inv in Hh.
    destruct Hh as (c & Hc & ->). apply row_cells_lookup_inv in Hc.
    destruct Hc as [-> Hlt]. inversion Eh as [Eser].
    apply (Hlast (S i)); [lia | symmetry; exact Eser].
Qed.

(** X5. In the record of a data row, the serialized header of a column is
    bound to the serialized value of the row in that column, unless a column
    further right has the same header. *)
Theorem simple_record_value (ws : Worksheet) (r j : nat) :
  2 <= r <= max_row ws -> 1 <= j <= max_column ws ->
  (forall j', j < j' <= max_column ws ->
              serialize_value (cell ws 1 j') <> serialize_value (cell ws 1 j)) ->
  exists record,
    process_simple_table ws !! (r - 2) = Some record /\
    dict_get (Some (serialize_value (cell ws 1 j))) record
    = Some (PyStr (serialize_value (cell ws r j))).
Proof.
  intros Hr Hj Hlast. exists (zipped_record ws r).
  split; [now apply process_simple_table_lookup | now apply zipped_record_value].
Qed.

Lemma simple_record_value_witness :
  exists record,
    process_simple_table flat_sample !! 0 = Some record /\
    dict_get (Some "Savings") record = Some (PyStr "$250").
Proof.
  apply (simple_record_value flat_sample 2 2).
  - simpl. lia.
  - simpl. lia.
  - intros j' Hj'. simpl in Hj'.
    assert (j' = 3) as -> by lia. discriminate.
Defined.

(** ** Hierarchical tables: tables without data, tables without indentation *)

Lemma row_cells_cons (ws : Worksheet) (r : nat) :
  1 <= max_column ws ->
  row_cells ws r = cell ws r 1 :: map (cell ws r) (range 2 (max_column ws + 1)).
Proof.
  intros H. unfold row_cells, range.
  replace (max_column ws + 1 - 1) with (S (max_column ws + 1 - 2)) by lia.
  reflexivity.
Qed.

Lemma iter_rows_in (ws : Worksheet) (row : list Cell) :
  1 <= max_column ws -> In row (iter_rows ws 2) ->
  exists r, 2 <= r <= max_row ws /\
            row = cell ws r 1 :: map (cell ws r) (range 2 (max_column ws + 1)).
Proof.
  intros Hc Hin. unfold iter_rows in Hin. apply in_map_iff in Hin.
  destruct Hin as (r & <- & Hr). apply in_range_list in Hr.
  exists r. split; [lia | now apply row_cells_cons].
Qed.

(** X6. A sub-grid in which no data cell of a data row is populated gives the
    empty tree: category rows alone write nothing. *)
Theorem no_data_gives_empty_tree (ws : Worksheet) :
  1 <= max_column ws ->
  (forall r c, 2 <= r <= max_row ws -> 2 <= c <= max_column ws ->
               value (cell ws r c) = None) ->
  process_hierarchical_table ws = OK [].
Proof.
  intros Hc Hempty. unfold process_hierarchical_table, build_tree.
  destruct (for_each_invariant (fun s : build_state => fst s = [])
              (process_row (map serialize_value (tl (row_cells ws 1))))
              (iter_rows ws 2)) with (st := ([], []) : build_state)
    as (st & E & Hst).
  - intros [t nodes] row Hin Ht. simpl in Ht. subst t.
    destruct (iter_rows_in ws row Hc Hin) as (r & Hr & ->).
    unfold process_row. rewrite any_populated_false.
    + eexists. split; reflexivity.
    + intros c Hin'. apply in_map_iff in Hin'. destruct Hin' as (k & <- & Hk).
      apply in_range_list in Hk. apply Hempty; lia.
  - reflexivity.
  - rewrite E. simpl. rewrite Hst. reflexivity.
Qed.

Lemma no_data_gives_empty_tree_witness :
  process_hierarchical_table categories_sample = OK [].
Proof.
  apply no_data_gives_empty_tree.
  - simpl. lia.
  - intros r c Hr Hc. simpl in Hr, Hc.
    assert (c = 2) as -> by lia.
    assert (r = 2 \/ r = 3) as [-> | ->] by lia; reflexivity.
Defined.

Lemma add_data_single (t : dict) (label : string) (col_headers : list string)
    (data_cells : list Cell) :
  add_data t [label] col_headers data_cells
  = OK (dict_set (Some label) (PyDict (leaf_of col_headers data_cells)) t).
Proof. reflexivity. Qed.

Lemma process_row_cons (col_headers : list string) (t : dict) (nodes : list string)
    (row0 : Cell) (data_cells : list Cell) :
  process_row col_headers (t, nodes) (row0 :: data_cells) =
  if any_populated data_cells
  then t' ← add_data t (firstn (leading_spaces (serialize_value row0)) nodes
                         ++ [strip (serialize_value row0)]) col_headers data_cells;
       OK (t', firstn (leading_spaces (serialize_value row0)) nodes
               ++ [strip (serialize_value row0)])
  else OK (t, firstn (leading_spaces (serialize_value row0)) nodes
              ++ [strip (serialize_value row0)]).
Proof. reflexivity. Qed.

Lemma for_each_unindented (col_headers : list string) (rows : list (list Cell)) :
  (forall row, In row rows ->
     exists row0 data_cells, row = row0 :: data_cells /\
                             leading_spaces (serialize_value row0) = 0) ->
  forall t nodes,
    exists nodes',
      for_each (process_row col_headers) rows (t, nodes)
      = OK (fold_left (fun d kv => dict_set (fst kv) (snd kv) d)
                      (flat_map (row_entry col_headers) rows) t, nodes').
Proof.
  induction rows as [|row rows IH]; intros Hrows t nodes.
  - exists nodes. reflexivity.
  - destruct (Hrows row (or_introl eq_refl)) as (row0 & data_cells & -> & Hlevel).
    change (flat_map (row_entry col_headers) ((row0 :: data_cells) :: rows))
      with (row_entry col_headers (row0 :: data_cells)
            ++ flat_map (row_entry col_headers) rows).
    change (for_each (process_row col_headers) ((row0 :: data_cells) :: rows) (t, nodes))
      with (st' ← process_row col_headers (t, nodes) (row0 :: data_cells);
            for_each (process_row col_headers) rows st').
    rewrite fold_left_app, process_row_cons, Hlevel.
    change (firstn 0 nodes ++ [strip (serialize_value row0)])
      with [strip (serialize_value row0)].
    change (row_entry col_headers (row0 :: data_cells))
      with (if any_populated data_cells
            then [(Some (strip (serialize_value row0)),
                   PyDict (leaf_of col_headers data_cells))]
            else []).
    destruct (any_populated data_cells).
    + rewrite add_data_single.
      apply (IH (fun r Hr => Hrows r (or_intror Hr))).
    + apply (IH (fun r Hr => Hrows r (or_intror Hr))).
Qed.

(** X7. A sub-grid whose row labels have no leading blank is reconstructed
    without an exception, and its tree is the dictionary of the populated
    rows, label to value map, in row order. *)
Theorem unindented_table_is_flat (ws : Worksheet) :
  1 <= max_column ws ->
  (forall r, 2 <= r <= max_row ws ->
             leading_spaces (serialize_value (cell ws r 1)) = 0) ->
  process_hierarchical_table ws = OK (flat_tree ws).
Proof.
  intros Hc Hflat.
  destruct (for_each_unindented (map serialize_value (tl (row_cells ws 1)))
              (iter_rows ws 2)) with (t := [] : dict) (nodes := [] : list string)
    as (nodes' & E).
  { intros row Hin. destruct (iter_rows_in ws row Hc Hin) as (r & Hr & ->).
    eexists _, _. split; [reflexivity | now apply Hflat]. }
  assert (build_tree ws = OK (flat_tree ws)) as Hbuild.
  { unfold build_tree. cbv zeta.
    match goal with
    | |- (?m ≫= _) = _ =>
        replace m with
          (OK (fold_left (fun d kv => dict_set (fst kv) (snd kv) d)
                 (flat_map (row_entry (map serialize_value (tl (row_cells ws 1))))
                           (iter_rows ws 2)) [], nodes') : result build_state)
          by (symmetry; exact E)
    end.
    reflexivity. }
  unfold process_hierarchical_table. rewrite Hbuild. simpl. f_equal.
  apply remove_none_str_keys.
  eapply Forall_impl; [exact (build_tree_top ws _ Hbuild)|].
  intros [k v] [(s & Ek & _) _]. simpl in *. congruence.
Qed.

Lemma unindented_table_is_flat_witness :
  process_hierarchical_table unindented_sample
  = OK [(Some "Cash", PyDict [(Some "Jan", PyStr "2")])].
Proof.
  apply (unindented_table_is_flat unindented_sample).
  - simpl. lia.
  - intros r Hr. simpl in Hr.
    assert (r = 2 \/ r = 3 \/ r = 4) as [-> | [-> | ->]] by lia; reflexivity.
Defined.

(** ** Hierarchical tables: what an attachment leaves alone, when it raises *)

Lemma add_data_at_not_dict (leaf : dict) (v : pyval) (nodes : list string) :
  is_dict v = false -> nodes <> [] -> add_data_at v nodes leaf = TypeError.
Proof.
  intros Hv Hne. destruct nodes as [|node [|node' rest]]; [congruence | |];
    destruct v; try discriminate; reflexivity.
Qed.

Lemma get_path_empty_dict (path : list string) :
  path <> [] -> get_path (PyDict []) path = None.
Proof. destruct path; [congruence | reflexivity]. Qed.

Lemma add_data_at_off_path (leaf : dict) (a b : string) (q n : list string) :
  a <> b ->
  forall p v v',
    add_data_at v (p ++ b :: n) leaf = OK v' ->
    get_path v' (p ++ a :: q) = get_path v (p ++ a :: q).
Proof.
  intros Hab. induction p as [|x p IH]; intros v v' H.
  - destruct v as [| |d];
      try (rewrite add_data_at_not_dict in H by (reflexivity || discriminate);
           discriminate).
    simpl app in *. apply add_data_at_top in H. destruct H as (child & _ & ->).
    cbn [get_path]. rewrite dict_get_set_ne by congruence. reflexivity.
  - destruct v as [| |d];
      try (rewrite add_data_at_not_dict in H by (reflexivity || discriminate);
           discriminate).
    simpl app in *.
    rewrite add_data_at_step in H by (destruct p; discriminate).
    apply bind_OK in H. destruct H as (child & Hchild & H). inversion H; subst v'.
    cbn [get_path]. rewrite dict_get_set_eq, (IH _ _ Hchild).
    destruct (dict_get (Some x) d); [reflexivity|].
    apply get_path_empty_dict. destruct p; discriminate.
Qed.

(** X8. Attaching the leaf of a row changes nothing off the path of the row:
    a path that leaves the path of the row at some label leads, after the
    attachment, to what it led to before. *)
Theorem add_data_off_path_unchanged (t t' : dict) (p : list string) (a b : string)
    (q n : list string) (col_headers : list string) (data_cells : list Cell) :
  a <> b ->
  add_data t (p ++ b :: n) col_headers data_cells = OK t' ->
  get_path (PyDict t') (p ++ a :: q) = get_path (PyDict t) (p ++ a :: q).
Proof.
  intros Hab H. unfold add_data in H. apply bind_OK in H.
  destruct H as (v & Hv & H). destruct v as [| |d]; try discriminate.
  inversion H; subst d. eapply add_data_at_off_path; eassumption.
Qed.

Lemma add_data_off_path_unchanged_witness :
  exists t',
    add_data assets_tree ["Assets"; "Bank"] ["Jan"; "Feb"] (tl cash_row) = OK t' /\
    get_path (PyDict t') ["Assets"; "Cash"] = Some (PyDict [(Some "Jan", PyStr "1")]).
Proof.
  eexists. split; [reflexivity|].
  exact (eq_trans
           (add_data_off_path_unchanged assets_tree _ ["Assets"] "Cash" "Bank" [] []
              ["Jan"; "Feb"] (tl cash_row) ltac:(discriminate) eq_refl)
           eq_refl).
Defined.

(** X9. A data row raises [TypeError] exactly when it has a populated data
    cell and the walk down its path leaves the dictionaries; it raises no
    other exception. *)
Theorem process_row_raises_iff (col_headers : list string) (t : dict)
    (nodes : list string) (row0 : Cell) (data_cells : list Cell) :
  (process_row col_headers (t, nodes) (row0 :: data_cells) = TypeError <->
   (exists c, In c data_cells /\ value c <> None) /\
   stays_in_dicts (PyDict t)
     (firstn (leading_spaces (serialize_value row0)) nodes
      ++ [strip (serialize_value row0)]) = false) /\
  process_row col_headers (t, nodes) (row0 :: data_cells) <> IndexError.
Proof.
  rewrite process_row_cons.
  set (path := firstn (leading_spaces (serialize_value row0)) nodes
               ++ [strip (serialize_value row0)]).
  assert (path <> []) as Hpath by (unfold path; destruct (firstn _ nodes); discriminate).
  destruct (any_populated data_cells) eqn:Hpop.
  - assert (exists c, In c data_cells /\ value c <> None) as Hex.
    { unfold any_populated in Hpop. apply existsb_exists in Hpop.
      destruct Hpop as (c & Hin & Hc). exists c. split; [assumption|].
      destruct (value c); [discriminate | discriminate]. }
    destruct (stays_in_dicts (PyDict t) path) eqn:Hwalk.
    + destruct (add_data_total t path col_headers data_cells Hwalk) as (t' & ->).
      simpl. split; [|discriminate]. split; [discriminate|]. intros [_ H]. discriminate.
    + unfold add_data.
      rewrite (add_data_at_raises (leaf_of col_headers data_cells) path Hpath _ Hwalk).
      simpl. split; [|discriminate]. split; [intros _; now split | reflexivity].
  - split; [|discriminate]. split; [discriminate|].
    intros [(c & Hin & Hc) _]. exfalso.
    unfold any_populated in Hpop.
    assert (existsb (fun c => match value c with None => false | Some _ => true end)
                    data_cells = true) as Habs.
    { apply existsb_exists. exists c. split; [assumption|].
      destruct (value c); [reflexivity | congruence]. }
    congruence.
Qed.

Lemma process_row_leaf_rule_witness :
  exists t,
    process_row ["Jan"; "Feb"] ([], ["Assets"]) cash_row = OK (t, ["Assets"; "Cash"]) /\
    get_path (PyDict t) ["Assets"; "Cash"]
    = Some (PyDict [(Some "Jan", PyStr "100"); (Some "Feb", PyStr "200")]).
Proof.
  destruct (process_row_leaf_rule ["Jan"; "Feb"] [] ["Assets"]
              (hd (cell new_worksheet 1 1) cash_row) (tl cash_row))
    as (_ & Hpop & _ & _).
  destruct Hpop as [Hleaf Htotal].
  - exists (hd (cell new_worksheet 1 1) (tl cash_row)).
    split; [simpl; auto | discriminate].
  - destruct (Htotal eq_refl) as (t & Ht). exists t.
    split; [exact Ht | exact (proj2 (Hleaf t _ Ht))].
Defined.

Lemma missing_ancestor_is_synthesized_witness :
  exists v',
    add_data_at (PyDict assets_tree) ["Assets"; "Bank"; "Chequing"; "1060"] [] = OK v' /\
    get_path v' ["Assets"; "Bank"]
    = Some (PyDict [(Some "Chequing", PyDict [(Some "1060", PyDict [])])]).
Proof.
  apply (missing_ancestor_is_synthesized []
           [(Some "Cash", PyDict [(Some "Jan", PyStr "1")])]
           "Bank" ["Chequing"; "1060"] ["Assets"]
           eq_refl ltac:(discriminate) (PyDict assets_tree) eq_refl).
Defined.

(** ** Detector: the sub-grid of a region *)

Lemma copy_row_spec (sheet : Worksheet) (start_row start_col r n : nat) (w : Worksheet) :
  start_row <= r ->
  let w' := fold_left (copy_cell sheet start_row start_col r) (seq start_col n) w in
  max_row w' = (if n =? 0 then max_row w else Nat.max (max_row w) (r - start_row + 1)) /\
  max_column w' = Nat.max (max_column w) n /\
  (forall i j,
      cd_value (contents w' i j) =
      if (i =? r - start_row + 1) && (1 <=? j) && (j <=? n)
      then value (cell sheet r (start_col + j - 1))
      else cd_value (contents w i j)) /\
  (forall i j, cd_border (contents w' i j) = cd_border (contents w i j)).
Proof.
  intros Hr. induction n as [|n IH].
  - cbn [seq fold_left Nat.eqb]. split; [reflexivity|]. split; [lia|].
    split; [|reflexivity].
    intros i j. destruct (Nat.leb_spec 1 j), (Nat.leb_spec j 0);
      rewrite ?andb_false_r, ?andb_true_r; cbn [andb]; try reflexivity; lia.
  - rewrite seq_S, fold_left_app. cbn [fold_left].
    destruct IH as (Hrow & Hcol & Hval & Hbor).
    set (w1 := fold_left (copy_cell sheet start_row start_col r) (seq start_col n) w) in *.
    assert (copy_cell sheet start_row start_col r w1 (start_col + n)
            = set_value w1 (r - start_row + 1) (S n)
                        (value (cell sheet r (start_col + n)))) as ->
        by (unfold copy_cell; f_equal; lia).
    cbn [max_row max_column contents set_value].
    split; [|split; [|split]].
    + rewrite Hrow. destruct n; simpl; lia.
    + rewrite Hcol. lia.
    + intros i j.
      destruct (Nat.eqb_spec i (r - start_row + 1)) as [Ei|Ei]; cbn [andb].
      * destruct (Nat.eqb_spec j (S n)) as [Ej|Ej].
        -- subst j. cbn [cd_value].
           replace (1 <=? S n) with true by (symmetry; apply Nat.leb_le; lia).
           replace (S n <=? S n) with true by (symmetry; apply Nat.leb_le; lia).
           cbn [andb]. do 2 f_equal. lia.
        -- rewrite Hval. rewrite (proj2 (Nat.eqb_eq _ _) Ei). cbn [andb].
           destruct (Nat.leb_spec 1 j); cbn [andb]; [|reflexivity].
           destruct (Nat.leb_spec j n), (Nat.leb_spec j (S n)); try reflexivity; lia.
      * rewrite Hval. rewrite (proj2 (Nat.eqb_neq _ _) Ei). reflexivity.
    + intros i j.
      destruct (Nat.eqb_spec i (r - start_row + 1)) as [Ei|Ei]; cbn [andb];
        [|apply Hbor].
      destruct (Nat.eqb_spec j (S n)) as [Ej|Ej]; [|apply Hbor].
      subst i j. cbn [cd_border]. apply Hbor.
Qed.

Lemma copy_rows_spec (sheet : Worksheet) (start_row start_col end_col m : nat)
    (w : Worksheet) :
  start_col <= end_col ->
  let n := end_col + 1 - start_col in
  let w' := fold_left (copy_row sheet start_row start_col end_col) (seq start_row m) w in
  max_row w' = (if m =? 0 then max_row w else Nat.max (max_row w) m) /\
  max_column w' = (if m =? 0 then max_column w else Nat.max (max_column w) n) /\
  (forall i j,
      cd_value (contents w' i j) =
      if (1 <=? i) && (i <=? m) && (1 <=? j) && (j <=? n)
      then value (cell sheet (start_row + i - 1) (start_col + j - 1))
      else cd_value (contents w i j)) /\
  (forall i j, cd_border (contents w' i j) = cd_border (contents w i j)).
Proof.
  intros Hc n. induction m as [|m IH].
  - cbn [seq fold_left Nat.eqb]. split; [reflexivity|]. split; [reflexivity|].
    split; [|reflexivity].
    intros i j. destruct (Nat.leb_spec 1 i), (Nat.leb_spec i 0);
      rewrite ?andb_false_r, ?andb_true_r; cbn [andb]; try reflexivity; lia.
  - rewrite seq_S, fold_left_app. cbn [fold_left].
    destruct IH as (Hrow & Hcol & Hval & Hbor).
    set (w1 := fold_left (copy_row sheet start_row start_col end_col)
                 (seq start_row m) w) in *.
    assert (copy_row sheet start_row start_col end_col w1 (start_row + m)
            = fold_left (copy_cell sheet start_row start_col (start_row + m))
                        (seq start_col n) w1) as -> by reflexivity.
    destruct (copy_row_spec sheet start_row start_col (start_row + m) n w1)
      as (Hrow' & Hcol' & Hval' & Hbor'); [lia|].
    replace (start_row + m - start_row + 1) with (S m) in * by lia.
    assert ((n =? 0) = false) as En by (apply Nat.eqb_neq; unfold n; lia).
    rewrite En in Hrow'.
    split; [|split; [|split]].
    + rewrite Hrow', Hrow. destruct m; simpl; lia.
    + rewrite Hcol', Hcol. destruct m; simpl; lia.
    + intros i j. rewrite Hval', Hval.
      destruct (Nat.eqb_spec i (S m)) as [Ei|Ei]; cbn [andb].
      * subst i.
        replace (1 <=? S m) with true by (symmetry; apply Nat.leb_le; lia).
        replace (S m <=? S m) with true by (symmetry; apply Nat.leb_le; lia).
        replace (S m <=? m) with false by (symmetry; apply Nat.leb_gt; lia).
        cbn [andb].
        destruct ((1 <=? j) && (j <=? n)); [|reflexivity].
        do 2 f_equal. lia.
      * destruct (Nat.leb_spec 1 i); cbn [andb]; [|reflexivity].
        destruct (Nat.leb_spec i m), (Nat.leb_spec i (S m)); try reflexivity; lia.
    + intros i j. rewrite Hbor'. apply Hbor.
Qed.

(** The sub-grid of a rectangle: its extents, its values, its borders. *)
Lemma copy_region_spec (sheet : Worksheet) (start_row start_col end_row end_col : nat) :
  start_row <= end_row -> start_col <= end_col ->
  let w := copy_region sheet start_row start_col end_row end_col in
  max_row w = end_row - start_row + 1 /\
  max_column w = end_col - start_col + 1 /\
  (forall i j, 1 <= i <= max_row w -> 1 <= j <= max_column w ->
               value (cell w i j)
               = value (cell sheet (start_row + i - 1) (start_col + j - 1))) /\
  (forall i j, border (cell w i j) = no_border).
Proof.
  intros Hr Hc w.
  destruct (copy_rows_spec sheet start_row start_col end_col
              (end_row + 1 - start_row) new_worksheet Hc)
    as (Hrow & Hcol & Hval & Hbor).
  fold (range start_row (end_row + 1)) in Hrow, Hcol, Hval, Hbor.
  fold (copy_region sheet start_row start_col end_row end_col) in Hrow, Hcol, Hval, Hbor.
  fold w in Hrow, Hcol, Hval, Hbor.
  assert ((end_row + 1 - start_row =? 0) = false) as Em by (apply Nat.eqb_neq; lia).
  rewrite Em in Hrow, Hcol. cbn [max_row max_column new_worksheet] in Hrow, Hcol.
  assert (max_row w = end_row - start_row + 1) as Erow by lia.
  assert (max_column w = end_col - start_col + 1) as Ecol by lia.
  split; [exact Erow|]. split; [exact Ecol|]. split.
  - intros i j Hi Hj. cbn [value cell]. rewrite Hval.
    replace (1 <=? i) with true by (symmetry; apply Nat.leb_le; lia).
    replace (i <=? end_row + 1 - start_row) with true
      by (symmetry; apply Nat.leb_le; lia).
    replace (1 <=? j) with true by (symmetry; apply Nat.leb_le; lia).
    replace (j <=? end_col + 1 - start_col) with true
      by (symmetry; apply Nat.leb_le; lia).
    reflexivity.
  - intros i j. cbn [border cell]. rewrite Hbor. reflexivity.
Qed.

(** ** Detector: the progress of the scan *)

(** A counted loop: an invariant that moves on with the counter. *)
Lemma for_each_counted {S : Type} (P : nat -> S -> Prop) (body : S -> nat -> result S)
    (n : nat) :
  forall a,
    (forall k s, a <= k < a + n -> P k s -> exists s', body s k = OK s' /\ P (Datatypes.S k) s') ->
    forall st, P a st -> exists st', for_each body (seq a n) st = OK st' /\ P (a + n) st'.
Proof.
  induction n as [|n IH]; intros a Hbody st Hst.
  - exists st. split; [reflexivity|]. now rewrite Nat.add_0_r.
  - destruct (Hbody a st) as (s1 & E1 & H1); [lia | assumption |].
    destruct (IH (Datatypes.S a)) with (st := s1) as (st' & E & H); [|assumption|].
    + intros k s Hk. apply Hbody. lia.
    + exists st'. cbn [seq for_each]. rewrite E1. split; [exact E|].
      now replace (a + Datatypes.S n) with (Datatypes.S a + n) by lia.
Qed.

Lemma repeat_lookup {A : Type} (x y : A) (n i : nat) :
  repeat x n !! i = Some y -> y = x.
Proof.
  revert i. induction n as [|n IH]; intros [|i] H; simpl in H; try discriminate.
  - congruence.
  - eapply IH. exact H.
Qed.

Section ScanProgress.

Variable sheet : Worksheet.

Lemma set_visited_only (v v' : mask) (r c r' c' : nat) :
  set_visited v r c = OK v' ->
  get_visited v' r' c' = OK true ->
  (r' = r /\ c' = c) \/ get_visited v r' c' = OK true.
Proof.
  unfold set_visited. destruct (v !! r) as [line|] eqn:Hline; [|discriminate].
  destruct (c <? length line) eqn:Hc; [|discriminate].
  intros E H. inversion E; subst v'. clear E.
  pose proof (lookup_lt_Some _ _ _ Hline) as Hr.
  unfold get_visited in *.
  destruct (Nat.eq_dec r' r) as [->|Hne].
  - rewrite list_lookup_insert_eq in H by assumption. rewrite Hline.
    destruct (Nat.eq_dec c' c) as [->|Hnc]; [now left|].
    rewrite list_lookup_insert_ne in H by congruence. now right.
  - rewrite list_lookup_insert_ne in H by congruence. now right.
Qed.

Lemma mark_row_only (start_row start_col r : nat) (cols : list nat) :
  forall v w v' w' r' c',
    for_each (mark_cell sheet start_row start_col r) cols (v, w) = OK (v', w') ->
    get_visited v' r' c' = OK true ->
    (r' = r /\ In c' cols) \/ get_visited v r' c' = OK true.
Proof.
  induction cols as [|c cols IH]; intros v w v' w' r' c' E H.
  - inversion E; subst. now right.
  - cbn [for_each] in E. apply bind_OK in E. destruct E as ([v1 w1] & E1 & E).
    unfold mark_cell in E1. apply bind_OK in E1. destruct E1 as (v2 & Eset & E1).
    inversion E1; subst v2 w1. clear E1.
    destruct (IH _ _ _ _ _ _ E H) as [[-> Hin]|H1].
    + left. split; [reflexivity | now right].
    + destruct (set_visited_only _ _ _ _ _ _ Eset H1) as [[-> ->]|H0].
      * left. split; [reflexivity | now left].
      * now right.
Qed.

Lemma mark_cells_visited_only (v v' : mask) (w' : Worksheet)
    (start_row start_col end_row end_col r' c' : nat) :
  mark_cells_visited sheet v start_row start_col end_row end_col = OK (v', w') ->
  get_visited v' r' c' = OK true ->
  (start_row <= r' <= end_row /\ start_col <= c' <= end_col)
  \/ get_visited v r' c' = OK true.
Proof.
  unfold mark_cells_visited.
  assert (forall rows v w v' w',
            for_each (mark_row sheet start_row start_col end_col) rows (v, w)
            = OK (v', w') ->
            get_visited v' r' c' = OK true ->
            (In r' rows /\ In c' (range start_col (end_col + 1)))
            \/ get_visited v r' c' = OK true) as Hrows.
  { induction rows as [|r rows IH]; intros v0 w0 v1 w1 E H.
    - inversion E; subst. now right.
    - cbn [for_each] in E. apply bind_OK in E. destruct E as ([v2 w2] & E1 & E).
      destruct (IH _ _ _ _ E H) as [[Hr Hc]|H2].
      + left. split; [now right | assumption].
      + unfold mark_row in E1.
        destruct (mark_row_only _ _ _ _ _ _ _ _ _ _ E1 H2) as [[-> Hc]|H0].
        * left. split; [now left | assumption].
        * now right. }
  intros E H. destruct (Hrows _ _ _ _ _ E H) as [[Hr Hc]|H0]; [|now right].
  left. apply in_range_list in Hr, Hc. lia.
Qed.

(** What the body of the column loop does to a state of the scan. *)
Lemma scan_cell_outcome (row_idx col_idx : nat) (st st' : scan_state) :
  scan_cell sheet row_idx st col_idx = OK st' ->
  (st' = st /\
   (get_visited (visited st) row_idx col_idx = OK true \/ row_idx < 45 \/
    has_upper_left_border (cell sheet row_idx col_idx) = false))
  \/
  (get_visited (visited st) row_idx col_idx = OK false /\ 45 <= row_idx /\
   has_upper_left_border (cell sheet row_idx col_idx) = true /\
   table_ranges st' = table_ranges st ++ [region_at sheet row_idx col_idx] /\
   forall r c, get_visited (visited st') r c = OK true ->
               in_range (region_at sheet row_idx col_idx) r c = true
               \/ get_visited (visited st) r c = OK true).
Proof.
  rewrite scan_cell_unfold. intros H. apply bind_OK in H.
  destruct H as (seen & Hseen & H).
  destruct seen; cbn [orb] in H.
  { inversion H; subst st'. left. split; [reflexivity | left; exact Hseen]. }
  destruct (row_idx <? 45) eqn:Hrow.
  { inversion H; subst st'. left. split; [reflexivity|].
    right. left. now apply Nat.ltb_lt. }
  apply Nat.ltb_ge in Hrow.
  destruct (has_upper_left_border (cell sheet row_idx col_idx)) eqn:Hul.
  2: { inversion H; subst st'. left. split; [reflexivity|]. right. right. reflexivity. }
  cbv zeta in H. apply bind_OK in H. destruct H as ([v' wb] & Emark & H).
  right. split; [assumption|]. split; [assumption|]. split; [reflexivity|].
  assert (table_ranges st' = table_ranges st ++ [region_at sheet row_idx col_idx]
          /\ visited st' = v') as [Hrs Hv].
  { destruct (is_empty_cell (cell sheet row_idx col_idx)), (is_complex st);
      inversion H; split; reflexivity. }
  split; [exact Hrs|]. intros r c Hm. rewrite Hv in Hm.
  destruct (mark_cells_visited_only _ _ _ _ _ _ _ _ _ Emark Hm) as [Hin|Hold];
    [left | now right].
  apply in_range_iff. exact Hin.
Qed.

Lemma scanned_before_next (r c r' c' : nat) :
  scanned_before r c r' c' -> scanned_before r c r' (S c').
Proof. unfold scanned_before. lia. Qed.

Lemma scanned_before_split (r c r' c' : nat) :
  scanned_before r c r' (S c') -> scanned_before r c r' c' \/ (r = r' /\ c = c').
Proof. unfold scanned_before. lia. Qed.

(** The body of the column loop moves the scan on by one cell. *)
Lemma scan_cell_progress (row_idx col_idx : nat) (st : scan_state) :
  1 <= row_idx < MAX_ROW_IDX -> 1 <= col_idx < max_column sheet ->
  scan_progress sheet row_idx col_idx st ->
  exists st', scan_cell sheet row_idx st col_idx = OK st' /\
              scan_progress sheet row_idx (S col_idx) st'.
Proof.
  intros Hr Hc [Hinv Hmarks Hord Hstarts Hcov].
  destruct (scan_cell_inv sheet row_idx col_idx st Hr Hc Hinv) as (st' & E & Hinv').
  exists st'. split; [exact E|].
  destruct (scan_cell_outcome _ _ _ _ E)
    as [[-> Hwhy] | (Hseen & Hrow & Hul & Hrs & Hnew)].
  - constructor; try assumption.
    + intros rng Hin. apply scanned_before_next. now apply Hstarts.
    + intros r c Hw Hb Hcorner. apply scanned_before_split in Hb.
      destruct Hb as [Hb|[-> ->]]; [now apply Hcov|].
      destruct Hwhy as [Hv|[Hlow|Hno]].
      * now apply Hmarks.
      * destruct Hw as [Hw _]. lia.
      * congruence.
  - pose proof (region_at_ok sheet row_idx col_idx ltac:(lia) Hc Hul) as Hok.
    pose proof (region_ok_bounds sheet _ Hok) as [Hrows Hcols].
    set (rng := region_at sheet row_idx col_idx) in *.
    assert (table_start_row rng = row_idx /\ table_start_col rng = col_idx)
      as [Esr Esc] by (split; reflexivity).
    constructor; try assumption.
    + intros r c Hm. destruct (Hnew r c Hm) as [Hin|Hold].
      * exists rng. split; [|exact Hin]. rewrite Hrs. apply in_or_app. right. now left.
      * destruct (Hmarks r c Hold) as (x & Hx & Hxr). exists x.
        split; [|exact Hxr]. rewrite Hrs. apply in_or_app. now left.
    + rewrite Hrs. intros i j a b Hij Ha Hb. apply lookup_snoc_inv in Hb.
      destruct Hb as [Hb|[-> ->]].
      * assert (i < length (table_ranges st)) by (apply lookup_lt_Some in Hb; lia).
        rewrite lookup_app_l in Ha by assumption. exact (Hord i j a b Hij Ha Hb).
      * rewrite lookup_app_l in Ha by assumption. rewrite Esr, Esc.
        apply Hstarts. apply list_elem_of_In. eapply list_elem_of_lookup_2. exact Ha.
    + rewrite Hrs. intros x Hx. apply in_app_or in Hx. destruct Hx as [Hx|[<-|[]]].
      * apply scanned_before_next. now apply Hstarts.
      * rewrite Esr, Esc. unfold scanned_before. lia.
    + rewrite Hrs. intros r c Hw Hb Hcorner. apply scanned_before_split in Hb.
      destruct Hb as [Hb|[-> ->]].
      * destruct (Hcov r c Hw Hb Hcorner) as (x & Hx & Hxr). exists x.
        split; [apply in_or_app; now left | exact Hxr].
      * exists rng. split; [apply in_or_app; right; now left|].
        apply in_range_iff. lia.
Qed.

Lemma scan_row_progress (row_idx : nat) (st : scan_state) :
  1 <= row_idx < MAX_ROW_IDX ->
  scan_progress sheet row_idx 1 st ->
  exists st', scan_row sheet st row_idx = OK st' /\
              scan_progress sheet (S row_idx) 1 st'.
Proof.
  intros Hr [Hinv Hmarks Hord Hstarts Hcov]. unfold scan_row, range.
  destruct (for_each_counted (scan_progress sheet row_idx)
              (scan_cell sheet row_idx) (max_column sheet - 1) 1)
    with (st := {| table_ranges := table_ranges st;
                   simple_table_workbooks := simple_table_workbooks st;
                   complex_table_workbooks := complex_table_workbooks st;
                   visited := visited st;
                   is_complex := false |})
    as (st' & E & [Hinv' Hmarks' Hord' Hstarts' Hcov']).
  - intros k s Hk Hs. apply scan_cell_progress; [assumption | lia | assumption].
  - constructor; try assumption. destruct Hinv. now constructor.
  - exists st'. split; [exact E|]. constructor; try assumption.
    + intros rng Hin. specialize (Hstarts' rng Hin).
      pose proof (proj1 (List.Forall_forall _ _) (inv_regions _ _ Hinv') rng Hin)
        as (_ & Hcol & _).
      unfold scanned_before in *. lia.
    + intros r c Hw Hb Hcorner. apply Hcov'; [assumption | | assumption].
      destruct Hw as [_ Hwc]. unfold scanned_before in *. lia.
Qed.

Lemma initial_state_progress : scan_progress sheet 1 1 (initial_state sheet).
Proof.
  constructor.
  - apply initial_state_inv.
  - intros r c H. exfalso. unfold initial_state, get_visited in H.
    cbn [visited] in H.
    destruct (repeat (repeat false (max_column sheet)) MAX_ROW_IDX !! r)
      as [line|] eqn:Hline; [|discriminate].
    apply repeat_lookup in Hline. subst line.
    destruct (repeat false (max_column sheet) !! c) as [b|] eqn:Hb; [|discriminate].
    apply repeat_lookup in Hb. subst b. discriminate.
  - intros i j a b _ Ha. discriminate.
  - intros rng [].
  - intros r c [Hw _] Hb _. unfold scanned_before in Hb. lia.
Qed.

(** The scan ends with every cell of the window behind it. *)
Lemma scan_progress_total :
  exists st,
    scan_progress sheet MAX_ROW_IDX 1 st /\
    get_table_ranges sheet
    = OK (table_ranges st, simple_table_workbooks st, complex_table_workbooks st).
Proof.
  destruct (for_each_counted (fun r => scan_progress sheet r 1) (scan_row sheet)
              (MAX_ROW_IDX - 1) 1) with (st := initial_state sheet)
    as (st & E & Hst).
  - intros k s Hk Hs. apply scan_row_progress; [unfold MAX_ROW_IDX in *; lia | assumption].
  - apply initial_state_progress.
  - exists st. split; [exact Hst|].
    unfold get_table_ranges, scan, range. now rewrite E.
Qed.

End ScanProgress.

(** ** Detector: further properties of what the scan emits *)

(** X12. No upper-left corner of the window is missed: each lies in a region
    of the scan, which it starts unless an earlier region holds it already.
    The scan emits nothing exactly when the window has no upper-left corner. *)
Theorem every_corner_is_covered (sheet : Worksheet) :
  exists rs simple complex,
    get_table_ranges sheet = OK (rs, simple, complex) /\
    (forall r c, in_window sheet r c ->
                 has_upper_left_border (cell sheet r c) = true ->
                 exists rng, In rng rs /\ in_range rng r c = true) /\
    (rs = [] <->
     forall r c, in_window sheet r c ->
                 has_upper_left_border (cell sheet r c) = false) /\
    (rs = [] -> simple = [] /\ complex = []).
Proof.
  destruct (scan_progress_total sheet) as (st & [Hinv _ _ _ Hcov] & E).
  eexists _, _, _. split; [exact E|].
  assert (forall r c, in_window sheet r c ->
                      has_upper_left_border (cell sheet r c) = true ->
                      exists rng, In rng (table_ranges st) /\ in_range rng r c = true)
    as Hall.
  { intros r c Hw Hcorner. apply Hcov; [assumption | | assumption].
    destruct Hw as [Hr _]. unfold scanned_before. lia. }
  split; [exact Hall|]. split; [split|].
  - intros Hnil r c Hw.
    destruct (has_upper_left_border (cell sheet r c)) eqn:Hc; [|reflexivity].
    destruct (Hall r c Hw Hc) as (rng & Hin & _). rewrite Hnil in Hin. destruct Hin.
  - intros Hnone. destruct (table_ranges st) as [|rng rs] eqn:Hrs; [reflexivity|].
    pose proof (inv_regions _ _ Hinv) as Hregs. rewrite Hrs in Hregs.
    inversion Hregs as [|? ? (Hr & Hc & Hul & _) _]; subst.
    unfold corner in Hul. rewrite Hnone in Hul; [discriminate | now split].
  - intros Hnil. rewrite (inv_simple _ _ Hinv), (inv_complex _ _ Hinv), Hnil.
    split; reflexivity.
Qed.

(** X13. The regions are emitted in the order of their corners in the scan,
    row by row and left to right in a row; no two regions have the same
    corner. *)
Theorem regions_in_scan_order (sheet : Worksheet) :
  exists rs simple complex,
    get_table_ranges sheet = OK (rs, simple, complex) /\
    scan_ordered rs /\
    (forall i j a b, rs !! i = Some a -> rs !! j = Some b -> i <> j ->
       (table_start_row a, table_start_col a) <> (table_start_row b, table_start_col b)).
Proof.
  destruct (scan_progress_total sheet) as (st & [_ _ Hord _ _] & E).
  eexists _, _, _. split; [exact E|]. split; [exact Hord|].
  intros i j a b Ha Hb Hij Heq. inversion Heq as [[Er Ec]].
  destruct (Nat.lt_total i j) as [Hlt|[?|Hgt]]; [|contradiction|].
  - pose proof (Hord i j a b Hlt Ha Hb) as H. unfold scanned_before in H. lia.
  - pose proof (Hord j i b a Hgt Hb Ha) as H. unfold scanned_before in H. lia.
Qed.

(** X14. Every cell of every region lies in the window of the scan: rows 45
    to 99, and columns before the last column of the sheet. *)
Theorem regions_inside_window (sheet : Worksheet) :
  exists rs simple complex,
    get_table_ranges sheet = OK (rs, simple, complex) /\
    forall rng r c, In rng rs -> in_range rng r c = true -> in_window sheet r c.
Proof.
  destruct (get_table_ranges_total sheet) as (st & Hinv & E).
  eexists _, _, _. split; [exact E|]. intros rng r c Hin Hrc.
  pose proof (proj1 (List.Forall_forall _ _) (inv_regions _ _ Hinv) rng Hin) as Hok.
  pose proof (region_ok_bounds sheet rng Hok) as [Hrows Hcols].
  destruct Hok as (Hr & Hc & _). apply in_range_iff in Hrc.
  unfold in_window. lia.
Qed.

Lemma find_end_col_first (sheet : Worksheet) (r c : nat) (n : nat) :
  forall a init,
    1 <= a -> a - 1 <= c < a - 1 + n ->
    has_top_right_border (cell sheet r c) = true ->
    (forall c', a - 1 <= c' < c -> has_top_right_border (cell sheet r c') = false) ->
    find_end_col sheet r (seq a n) init = c.
Proof.
  induction n as [|n IH]; intros a init Ha Hc Hmark Hbefore; [lia|].
  cbn [seq find_end_col].
  destruct (Nat.eq_dec c (a - 1)) as [->|Hne].
  - now rewrite Hmark.
  - rewrite Hbefore by lia. apply IH; try lia; try assumption.
    intros c' Hc'. apply Hbefore. lia.
Qed.

Lemma find_end_row_first (sheet : Worksheet) (col r : nat) (n : nat) :
  forall a init,
    1 <= a -> a - 1 <= r < a - 1 + n ->
    has_bottom_right_border (cell sheet r col) = true ->
    (forall r', a - 1 <= r' < r -> has_bottom_right_border (cell sheet r' col) = false) ->
    find_end_row sheet col (seq a n) init = r.
Proof.
  induction n as [|n IH]; intros a init Ha Hr Hmark Hbefore; [lia|].
  cbn [seq find_end_row].
  destruct (Nat.eq_dec r (a - 1)) as [->|Hne].
  - now rewrite Hmark.
  - rewrite Hbefore by lia. apply IH; try lia; try assumption.
    intros r' Hr'. apply Hbefore. lia.
Qed.

(** X15. A region ends at the first closing corners: its last column is the
    first column, from its corner rightwards, whose cell in the row of the
    corner is a top-right corner, and its last row is the first row, from its
    corner downwards, whose cell in that last column is a bottom-right
    corner. *)
Theorem region_ends_at_first_closing_corner (sheet : Worksheet) :
  exists rs simple complex,
    get_table_ranges sheet = OK (rs, simple, complex) /\
    forall rng, In rng rs ->
      (forall c, table_start_col rng <= c < max_column sheet ->
         has_top_right_border (cell sheet (table_start_row rng) c) = true ->
         (forall c', table_start_col rng <= c' < c ->
            has_top_right_border (cell sheet (table_start_row rng) c') = false) ->
         table_end_col rng = c) /\
      (forall r, table_start_row rng <= r < MAX_ROW_IDX ->
         has_bottom_right_border (cell sheet r (table_end_col rng)) = true ->
         (forall r', table_start_row rng <= r' < r ->
            has_bottom_right_border (cell sheet r' (table_end_col rng)) = false) ->
         table_end_row rng = r).
Proof.
  destruct (get_table_ranges_total sheet) as (st & Hinv & E).
  eexists _, _, _. split; [exact E|]. intros rng Hin.
  pose proof (proj1 (List.Forall_forall _ _) (inv_regions _ _ Hinv) rng Hin) as Hok.
  destruct Hok as (Hr & Hc & _ & Ec & Er). split.
  - intros c Hcc Hmark Hbefore. rewrite Ec. unfold range.
    apply find_end_col_first; try assumption; try lia.
    intros c' Hc'. apply Hbefore. lia.
  - intros r Hrr Hmark Hbefore. rewrite Er. unfold range.
    apply find_end_row_first; try assumption; try lia.
    intros r' Hr'. apply Hbefore. lia.
Qed.

Lemma two_tables_ranges :
  exists simple complex,
    get_table_ranges two_tables_sheet
    = OK ([two_tables_first; two_tables_second], simple, complex).
Proof. eexists _, _. vm_compute. reflexivity. Qed.

Lemma region_ends_at_first_closing_corner_witness :
  exists rng rest simple complex,
    get_table_ranges two_tables_sheet = OK (rng :: rest, simple, complex) /\
    table_start_row rng = 45 /\ table_start_col rng = 1 /\
    table_end_col rng = 2 /\ table_end_row rng = 46.
Proof.
  destruct (region_ends_at_first_closing_corner two_tables_sheet)
    as (rs & simple & complex & E & H).
  destruct two_tables_ranges as (simple' & complex' & E').
  assert (rs = [two_tables_first; two_tables_second]) as -> by congruence.
  exists two_tables_first, [two_tables_second], simple, complex.
  split; [exact E|]. split; [reflexivity|]. split; [reflexivity|].
  destruct (H two_tables_first (or_introl eq_refl)) as [Hcol Hrow]. split.
  - apply Hcol.
    + simpl. lia.
    + reflexivity.
    + intros c' Hc'. simpl in Hc'. assert (c' = 1) as -> by lia. reflexivity.
  - apply Hrow.
    + simpl. unfold MAX_ROW_IDX. lia.
    + reflexivity.
    + intros r' Hr'. simpl in Hr'. assert (r' = 45) as -> by lia. reflexivity.
Defined.

(** ** Detector: the sub-grids it hands on *)

(** Where the sub-grids of the two lists come from. *)
Lemma emitted_sub_grid (sheet : Worksheet) (st : scan_state) (w : Worksheet) :
  scan_inv sheet st ->
  (In w (simple_table_workbooks st) ->
     exists rng, In rng (table_ranges st) /\ region_ok sheet rng /\
                 is_empty_cell (corner sheet rng) = false /\ w = sub_grid sheet rng) /\
  (In w (complex_table_workbooks st) ->
     exists rng, In rng (table_ranges st) /\ region_ok sheet rng /\
                 is_empty_cell (corner sheet rng) = true /\ w = sub_grid sheet rng).
Proof.
  intros Hinv. pose proof (inv_regions _ _ Hinv) as Hregs.
  rewrite List.Forall_forall in Hregs. split; intros Hin.
  - rewrite (inv_simple _ _ Hinv) in Hin. apply in_map_iff in Hin.
    destruct Hin as (rng & <- & Hf). apply filter_In in Hf. destruct Hf as [Hin Hc].
    exists rng. split; [exact Hin|]. split; [now apply Hregs|]. split; [|reflexivity].
    unfold corner_is_empty in Hc. now destruct (is_empty_cell (corner sheet rng)).
  - rewrite (inv_complex _ _ Hinv) in Hin. apply in_map_iff in Hin.
    destruct Hin as (rng & <- & Hf). apply filter_In in Hf. destruct Hf as [Hin Hc].
    exists rng. split; [exact Hin|]. split; [now apply Hregs|].
    split; [exact Hc | reflexivity].
Qed.

Lemma sub_grid_spec (sheet : Worksheet) (rng : table_range) :
  region_ok sheet rng ->
  let w := sub_grid sheet rng in
  max_row w = table_end_row rng - table_start_row rng + 1 /\
  max_column w = table_end_col rng - table_start_col rng + 1 /\
  (forall i j, 1 <= i <= max_row w -> 1 <= j <= max_column w ->
               value (cell w i j)
               = value (cell sheet (table_start_row rng + i - 1)
                                   (table_start_col rng + j - 1))) /\
  (forall i j, border (cell w i j) = no_border).
Proof.
  intros Hok. pose proof (region_ok_bounds sheet rng Hok) as [Hrows Hcols].
  apply copy_region_spec; lia.
Qed.

(** X16. The sub-grid of a region is the rectangle of the region, re-indexed
    from (1, 1): it has the rows and the columns of the region, its cell
    (i, j) has the value of the cell (start_row + i - 1, start_col + j - 1)
    of the sheet, and none of its cells has a border. *)
Theorem sub_grid_is_reindexed_copy (sheet : Worksheet) :
  exists rs simple complex,
    get_table_ranges sheet = OK (rs, simple, complex) /\
    forall w, In w simple \/ In w complex ->
      exists rng,
        In rng rs /\
        max_row w = table_end_row rng - table_start_row rng + 1 /\
        max_column w = table_end_col rng - table_start_col rng + 1 /\
        (forall i j, 1 <= i <= max_row w -> 1 <= j <= max_column w ->
                     value (cell w i j)
                     = value (cell sheet (table_start_row rng + i - 1)
                                         (table_start_col rng + j - 1))) /\
        (forall i j, border (cell w i j) = no_border).
Proof.
  destruct (get_table_ranges_total sheet) as (st & Hinv & E).
  eexists _, _, _. split; [exact E|]. intros w Hw.
  destruct (emitted_sub_grid sheet st w Hinv) as [Hs Hc].
  assert (exists rng, In rng (table_ranges st) /\ region_ok sheet rng /\
                      w = sub_grid sheet rng) as (rng & Hin & Hok & ->).
  { destruct Hw as [Hw|Hw]; [destruct (Hs Hw) as (rng & ? & ? & _ & ?)
                            | destruct (Hc Hw) as (rng & ? & ? & _ & ?)]; eauto. }
  exists rng. split; [exact Hin|]. now apply sub_grid_spec.
Qed.

Lemma sub_grid_corner (sheet : Worksheet) (rng : table_range) :
  region_ok sheet rng ->
  value (cell (sub_grid sheet rng) 1 1) = value (corner sheet rng).
Proof.
  intros Hok. destruct (sub_grid_spec sheet rng Hok) as (Hr & Hc & Hval & _).
  rewrite Hval by lia. unfold corner. do 2 f_equal; lia.
Qed.

(** X17. The classification shows in the sub-grids: the cell (1, 1) of every
    sub-grid of the complex list is empty, and the cell (1, 1) of every
    sub-grid of the simple list is populated. *)
Theorem sub_grid_corner_matches_list (sheet : Worksheet) :
  exists rs simple complex,
    get_table_ranges sheet = OK (rs, simple, complex) /\
    (forall w, In w complex -> value (cell w 1 1) = None) /\
    (forall w, In w simple -> value (cell w 1 1) <> None).
Proof.
  destruct (get_table_ranges_total sheet) as (st & Hinv & E).
  eexists _, _, _. split; [exact E|]. split; intros w Hw;
    destruct (emitted_sub_grid sheet st w Hinv) as [Hs Hc].
  - destruct (Hc Hw) as (rng & _ & Hok & Hempty & ->).
    rewrite sub_grid_corner by assumption.
    unfold is_empty_cell in Hempty. destruct (value (corner sheet rng)); congruence.
  - destruct (Hs Hw) as (rng & _ & Hok & Hempty & ->).
    rewrite sub_grid_corner by assumption.
    unfold is_empty_cell in Hempty. destruct (value (corner sheet rng)); congruence.
Qed.

Lemma no_corner_no_region (sheet : Worksheet) :
  (forall r c, has_upper_left_border (cell sheet r c) = false) ->
  get_table_ranges sheet = OK ([], [], []).
Proof.
  intros Hnone. destruct (get_table_ranges_total sheet) as (st & Hinv & E).
  assert (table_ranges st = []) as Hrs.
  { destruct (table_ranges st) as [|rng rs] eqn:Hrs; [reflexivity|].
    pose proof (inv_regions _ _ Hinv) as Hregs. rewrite Hrs in Hregs.
    inversion Hregs as [|? ? (_ & _ & Hul & _) _]; subst.
    unfold corner in Hul. rewrite Hnone in Hul. discriminate. }
  rewrite E, (inv_simple _ _ Hinv), (inv_complex _ _ Hinv), Hrs. reflexivity.
Qed.

(** X18. The sub-grids carry values only: a scan of any sub-grid that the
    detector hands on finds no region in it. *)
Theorem sub_grid_has_no_region (sheet : Worksheet) :
  exists rs simple complex,
    get_table_ranges sheet = OK (rs, simple, complex) /\
    forall w, In w simple \/ In w complex -> get_table_ranges w = OK ([], [], []).
Proof.
  destruct (get_table_ranges_total sheet) as (st & Hinv & E).
  eexists _, _, _. split; [exact E|]. intros w Hw.
  destruct (emitted_sub_grid sheet st w Hinv) as [Hs Hc].
  assert (exists rng, region_ok sheet rng /\ w = sub_grid sheet rng)
    as (rng & Hok & ->).
  { destruct Hw as [Hw|Hw]; [destruct (Hs Hw) as (rng & _ & ? & _ & ?)
                            | destruct (Hc Hw) as (rng & _ & ? & _ & ?)]; eauto. }
  apply no_corner_no_region. intros r c.
  destruct (sub_grid_spec sheet rng Hok) as (_ & _ & _ & Hbor).
  unfold has_upper_left_border. rewrite Hbor. reflexivity.
Qed.

(** ** From the sheet to the records *)

Lemma serialize_value_ext (a b : Cell) :
  value a = value b -> serialize_value a = serialize_value b.
Proof. unfold serialize_value. now intros ->. Qed.

(** X19. The records of a simple region hold the values of the sheet: the
    sub-grid of a region of h rows gives h - 1 records, and record i binds the
    serialized header of a column of the region, read in the first row of the
    region, to the serialized value found i rows below it, unless a column of
    the region further right has the same header. *)
Theorem simple_region_records (sheet : Worksheet) :
  exists rs simple complex,
    get_table_ranges sheet = OK (rs, simple, complex) /\
    forall w, In w simple ->
      exists rng,
        In rng rs /\
        length (process_simple_table w) = table_end_row rng - table_start_row rng /\
        forall i j,
          1 <= i <= table_end_row rng - table_start_row rng ->
          j <= table_end_col rng - table_start_col rng ->
          (forall j', j < j' <= table_end_col rng - table_start_col rng ->
             serialize_value (cell sheet (table_start_row rng) (table_start_col rng + j'))
             <> serialize_value (cell sheet (table_start_row rng) (table_start_col rng + j))) ->
          exists record,
            process_simple_table w !! (i - 1) = Some record /\
            dict_get (Some (serialize_value
                              (cell sheet (table_start_row rng) (table_start_col rng + j))))
                     record
            = Some (PyStr (serialize_value
                             (cell sheet (table_start_row rng + i) (table_start_col rng + j)))).
Proof.
  destruct (get_table_ranges_total sheet) as (st & Hinv & E).
  eexists _, _, _. split; [exact E|]. intros w Hw.
  destruct (emitted_sub_grid sheet st w Hinv) as [Hs _].
  destruct (Hs Hw) as (rng & Hin & Hok & _ & ->).
  destruct (sub_grid_spec sheet rng Hok) as (Hrow & Hcol & Hval & _).
  set (w := sub_grid sheet rng) in *.
  exists rng. split; [exact Hin|]. split.
  - rewrite process_simple_table_unfold, length_map. unfold range.
    rewrite length_seq. lia.
  - intros i j Hi Hj Hlast.
    assert (forall a b, 1 <= a <= max_row w -> 1 <= b <= max_column w ->
              serialize_value (cell w a b)
              = serialize_value (cell sheet (table_start_row rng + a - 1)
                                            (table_start_col rng + b - 1))) as Hser.
    { intros a b Ha Hb. apply serialize_value_ext. now apply Hval. }
    exists (zipped_record w (S i)). split.
    + replace (i - 1) with (S i - 2) by lia.
      apply process_simple_table_lookup. lia.
    + pose proof (zipped_record_value w (S i) (S j)) as Hrec.
      rewrite !Hser in Hrec by lia.
      replace (table_start_row rng + 1 - 1) with (table_start_row rng) in Hrec by lia.
      replace (table_start_col rng + S j - 1) with (table_start_col rng + j) in Hrec by lia.
      replace (table_start_row rng + S i - 1) with (table_start_row rng + i) in Hrec by lia.
      apply Hrec; [lia|].
      intros j' Hj'. rewrite Hser by lia.
      replace (table_start_row rng + 1 - 1) with (table_start_row rng) by lia.
      replace (table_start_col rng + j' - 1) with (table_start_col rng + (j' - 1)) by lia.
      apply Hlast. lia.
Qed.

(** ** Hierarchical tables: two rows with one path *)

Lemma dict_set_set (k : pykey) (v1 v2 : pyval) (d : dict) :
  dict_set k v2 (dict_set k v1 d) = dict_set k v2 d.
Proof.
  induction d as [|[k0 v0] d IH]; simpl.
  - now rewrite key_eqb_refl.
  - destruct (key_eqb k k0) eqn:E; simpl; rewrite E; [reflexivity | now rewrite IH].
Qed.

Lemma add_data_at_again (leaf1 leaf2 : dict) (nodes : list string) :
  forall v v1,
    add_data_at v nodes leaf1 = OK v1 ->
    add_data_at v1 nodes leaf2 = add_data_at v nodes leaf2.
Proof.
  induction nodes as [|node rest IH]; intros v v1 H; [discriminate|].
  destruct rest as [|node' rest]; destruct v as [| |d]; try discriminate.
  - inversion H; subst v1. cbn [add_data_at]. now rewrite dict_set_set.
  - rewrite add_data_at_step in H by discriminate.
    apply bind_OK in H. destruct H as (child & Hchild & H). inversion H; subst v1.
    rewrite !add_data_at_step by discriminate.
    rewrite dict_get_set_eq, (IH _ _ Hchild).
    destruct (add_data_at _ (node' :: rest) leaf2); try reflexivity.
    cbn. now rewrite dict_set_set.
Qed.

(** X20. Of two rows with the same path the later one decides: attaching a
    second value map on the path of a first one gives the tree that the
    second attachment alone gives. *)
Theorem add_data_last_write_wins (t t1 : dict) (nodes : list string)
    (col_headers1 col_headers2 : list string) (data1 data2 : list Cell) :
  add_data t nodes col_headers1 data1 = OK t1 ->
  add_data t1 nodes col_headers2 data2 = add_data t nodes col_headers2 data2.
Proof.
  unfold add_data. intros H. apply bind_OK in H. destruct H as (v & Hv & H).
  destruct v as [| |d]; try discriminate. inversion H; subst d.
  now rewrite (add_data_at_again _ _ _ _ _ Hv).
Qed.

Lemma add_data_last_write_wins_witness :
  exists t1,
    add_data assets_tree ["Assets"; "Cash"] ["Jan"; "Feb"] (tl cash_row) = OK t1 /\
    add_data t1 ["Assets"; "Cash"] ["Jan"] (tl cash_row)
    = OK [(Some "Assets", PyDict [(Some "Cash", PyDict [(Some "Jan", PyStr "100")])])].
Proof.
  eexists. split; [reflexivity|].
  exact (eq_trans
           (add_data_last_write_wins assets_tree _ ["Assets"; "Cash"]
              ["Jan"; "Feb"] ["Jan"] (tl cash_row) (tl cash_row) eq_refl)
           eq_refl).
Defined.

(** ** Detector: every region starts at a corner *)

(** X21. Every region starts at a cell that is an upper-left corner, and the
    corner decides the region: the region is what the two inner loops find
    from that cell. *)
Theorem regions_start_at_corners (sheet : Worksheet) :
  exists rs simple complex,
    get_table_ranges sheet = OK (rs, simple, complex) /\
    forall rng, In rng rs ->
      has_upper_left_border (corner sheet rng) = true /\
      rng = region_at sheet (table_start_row rng) (table_start_col rng).
Proof.
  destruct (get_table_ranges_total sheet) as (st & Hinv & E).
  eexists _, _, _. split; [exact E|]. intros rng Hin.
  pose proof (proj1 (List.Forall_forall _ _) (inv_regions _ _ Hinv) rng Hin) as Hok.
  destruct Hok as (_ & _ & Hul & Ec & Er). split; [exact Hul|].
  destruct rng as [sr sc er ec]. unfold region_at. cbn in *. subst ec er. reflexivity.
Qed.
